(** * gofastcaddy: path codec, nested tree, path initialiser, route composer

    A shallow embedding of the Go packages [internal/config], [internal/api],
    [internal/routes], [internal/tls] and [pkg/types], and the properties
    stated about them.

    Go strings are byte sequences and are modelled by [string]; Go [int] by
    [Z]; a Go [error] by [option error] ([None] is [nil]).  The HTTP exchange
    with the Caddy admin endpoint is the only effect: every function that
    talks to the server is a state transformer over a connection that holds
    the remote state and the list of requests issued so far. *)

From Stdlib Require Import ZArith Ascii String DecimalString DecimalNat Lia.
From Stdlib Require Import Floats.SpecFloat Sorting.Sorted.
From stdpp Require Import base option list gmap strings.

Set Warnings "-register-all".
Set Default Proof Using "Type".

(* ===================================================================== *)
(** * Definitions *)
(* ===================================================================== *)

(** ** The part of Go's [strings] and [strconv] packages the code uses *)

Module strings.

(** [strings.Trim(s, cutset)] with a one-byte cutset strips that byte
    from the right end and then from the left end. *)
Fixpoint trimLeftByte (s : string) (c : ascii) : string :=
  match s with
  | String a s' => if Ascii.eqb a c then trimLeftByte s' c else s
  | EmptyString => EmptyString
  end.

Fixpoint trimRightByte (s : string) (c : ascii) : string :=
  match s with
  | EmptyString => EmptyString
  | String a s' =>
      match trimRightByte s' c with
      | EmptyString =>
          if Ascii.eqb a c then EmptyString else String a EmptyString
      | t => String a t
      end
  end.

Definition Trim (s : string) (c : ascii) : string :=
  trimLeftByte (trimRightByte s c) c.

(** [strings.Split(s, sep)] with a one-byte separator: one more piece
    than there are separators, empty pieces kept. *)
Fixpoint Split (s : string) (sep : ascii) : list string :=
  match s with
  | EmptyString => [EmptyString]
  | String a s' =>
      if Ascii.eqb a sep then EmptyString :: Split s' sep
      else match Split s' sep with
           | h :: t => String a h :: t
           | [] => [String a EmptyString]
           end
  end.

Fixpoint Join (elems : list string) (sep : string) : string :=
  match elems with
  | [] => EmptyString
  | [a] => a
  | a :: rest => a +:+ sep +:+ Join rest sep
  end.

(** [strings.HasPrefix] and [strings.HasSuffix] with a one-byte
    argument. *)
Definition HasPrefix (s : string) (c : ascii) : bool :=
  match s with
  | String a _ => Ascii.eqb a c
  | EmptyString => false
  end.

Fixpoint HasSuffix (s : string) (c : ascii) : bool :=
  match s with
  | EmptyString => false
  | String a EmptyString => Ascii.eqb a c
  | String _ s' => HasSuffix s' c
  end.

(** [strings.ToUpper] on ASCII letters (the only method names the code
    passes are ASCII). *)
Definition upper_byte (a : ascii) : ascii :=
  let n := nat_of_ascii a in
  if (97 <=? n)%nat && (n <=? 122)%nat then ascii_of_nat (n - 32) else a.

Fixpoint ToUpper (s : string) : string :=
  match s with
  | EmptyString => EmptyString
  | String a s' => String (upper_byte a) (ToUpper s')
  end.

(** [strings.TrimSuffix(s, suffix)] with a one-byte suffix: one trailing
    occurrence is removed, if there is one. *)
Fixpoint TrimSuffix (s : string) (c : ascii) : string :=
  match s with
  | EmptyString => EmptyString
  | String a EmptyString => if Ascii.eqb a c then EmptyString else s
  | String a s' => String a (TrimSuffix s' c)
  end.

(** [strings.Contains(s, substr)] with a one-byte [substr]. *)
Fixpoint Contains (s : string) (c : ascii) : bool :=
  match s with
  | EmptyString => false
  | String a s' => Ascii.eqb a c || Contains s' c
  end.

(** [strings.ContainsAny(s, chars)] on byte strings: some byte of [s]
    occurs in [chars]. *)
Fixpoint ContainsAny (s chars : string) : bool :=
  match s with
  | EmptyString => false
  | String a s' => Contains chars a || ContainsAny s' chars
  end.

End strings.

Module strconv.

(** [strconv.Itoa]: decimal digits, a leading minus sign for negatives. *)
Definition Itoa (i : Z) : string := NilZero.string_of_int (Z.to_int i).

End strconv.

(** The separator of configuration paths. *)
Definition slash : ascii := "/"%char.

(** ** Dynamic values

    What an [interface{}] holds in this code base: the values
    [encoding/json] decodes into (nil, bool, float64, string,
    [[]interface{}], [map[string]interface{}]) and the port arguments
    callers pass ([int], [[]string], [[]int]). *)
Inductive Value : Type :=
| VNil
| VBool (b : bool)
| VInt (n : Z)
| VFloat64 (f : spec_float)
| VString (s : string)
| VStrings (l : list string)
| VInts (l : list Z)
| VList (l : list Value)
| VMap (m : gmap string Value).

(** The conversion [int(p)] of a [float64]: the fractional part is
    discarded.  NaN, the infinities and values outside the 64-bit range
    are implementation-dependent in Go; amd64 yields the smallest
    [int64], which is what is written here. *)
Definition int_min : Z := - 2 ^ 63.
Definition int_max : Z := 2 ^ 63 - 1.

Definition float64_to_int (f : spec_float) : Z :=
  match f with
  | S754_zero _ => 0
  | S754_finite s m e =>
      let mag := if (0 <=? e)%Z then Z.shiftl (Z.pos m) e
                 else Z.shiftr (Z.pos m) (- e) in
      let v := if s then (- mag)%Z else mag in
      if (int_min <=? v)%Z && (v <=? int_max)%Z then v else int_min
  | _ => int_min
  end.

(** ** JSON documents on the wire *)
Inductive Json : Type :=
| JNull
| JBool (b : bool)
| JNumber (n : Z)
| JString (s : string)
| JArray (l : list Json)
| JObject (fields : list (string * Json)).

(** ** [pkg/types] *)
Module types.

Record Upstream := mkUpstream { Dial : string }.

Record RouteMatch := mkRouteMatch { Host : list string; Path : list string }.

(** [Route] and [Handler] refer to each other.  A list models a non-nil
    slice: every slice the code stores in a field without [omitempty] is
    built by a literal. *)
Inductive Route : Type :=
  mkRoute { ID : string;
            Match : list RouteMatch;
            Handle : list Handler;
            Terminal : bool }
with Handler : Type :=
  mkHandler { HandlerKind : string;      (* field [Handler] *)
              Upstreams : list Upstream;
              Routes : list Route }.

Record HTTPServer := mkHTTPServer {
  Listen : list string;
  ServerRoutes : list Route;             (* field [Routes] *)
  Protocols : list string }.

Record PKIConfig := mkPKIConfig { InstallTrust : bool }.

(** [json.Marshal] on these structs, following the field tags. *)
Definition omitempty_string (key s : string) : list (string * Json) :=
  if String.eqb s "" then [] else [(key, JString s)].

Definition omitempty_slice (key : string) (l : list Json)
  : list (string * Json) :=
  match l with
  | [] => []
  | _ => [(key, JArray l)]
  end.

Definition MarshalStrings (l : list string) : list Json := map JString l.

Definition MarshalUpstream (u : Upstream) : Json :=
  JObject [("dial", JString (Dial u))].

Definition MarshalRouteMatch (m : RouteMatch) : Json :=
  JObject (omitempty_slice "host" (MarshalStrings (Host m)) ++
           omitempty_slice "path" (MarshalStrings (Path m))).

Fixpoint MarshalRoute (r : Route) : Json :=
  JObject (omitempty_string "@id" (ID r) ++
           [("match", JArray (map MarshalRouteMatch (Match r)));
            ("handle", JArray (map MarshalHandler (Handle r)));
            ("terminal", JBool (Terminal r))])
with MarshalHandler (h : Handler) : Json :=
  JObject ([("handler", JString (HandlerKind h))] ++
           omitempty_slice "upstreams" (map MarshalUpstream (Upstreams h)) ++
           omitempty_slice "routes" (map MarshalRoute (Routes h))).

Definition MarshalHTTPServer (s : HTTPServer) : Json :=
  JObject ([("listen", JArray (MarshalStrings (Listen s)));
            ("routes", JArray (map MarshalRoute (ServerRoutes s)))] ++
           omitempty_slice "protocols" (MarshalStrings (Protocols s))).

Definition MarshalPKIConfig (c : PKIConfig) : Json :=
  JObject [("install_trust", JBool (InstallTrust c))].

End types.

(** Field lookup in a JSON object (first occurrence of the key). *)
Fixpoint field (key : string) (fields : list (string * Json)) : option Json :=
  match fields with
  | [] => None
  | (k, v) :: rest => if String.eqb k key then Some v else field key rest
  end.

(** ** [internal/api]: the client of the admin endpoint *)
Module api.

Inductive Request : Type :=
| Get (url : string)
| Send (method url : string) (body : Json)
| Delete (url : string).

(** A response is a transport failure, or a status code with a body
    ([None] when the body is not a JSON document). *)
Inductive Response : Type :=
| NetError
| Reply (status : Z) (body : option Json).

Inductive error : Type :=
| RequestFailed
| BadStatus (status : Z) (message : option string)
| BadJSON
| Wrapped (context : string) (e : error)
| UnsupportedPortType (ports : Value).

(** The remote endpoint, as the HTTP client sees it.  A GET observes the
    remote state; the other requests may change it. *)
Class Remote (W : Type) : Type := {
  do_get : string -> W -> Response;
  do_send : string -> string -> Json -> W -> Response * W;
  do_delete : string -> W -> Response * W
}.

(** The remote state together with the requests issued so far, oldest
    first. *)
Record Conn (W : Type) : Type := mkConn { remote : W; issued : list Request }.
Arguments mkConn {W} _ _.
Arguments remote {W} _.
Arguments issued {W} _.

Definition M (W A : Type) : Type := Conn W -> A * Conn W.

Definition ret {W A} (a : A) : M W A := fun c => (a, c).

Definition bind {W A B} (m : M W A) (k : A -> M W B) : M W B :=
  fun c => let '(a, c') := m c in k a c'.

(** [if err := m; err != nil { return err }; k] *)
Definition check {W} (m : M W (option error)) (k : M W (option error))
  : M W (option error) :=
  bind m (fun err => match err with Some e => ret (Some e) | None => k end).

Definition BaseURL : string := "http://localhost:2019".

Definition GetIDURL (path : string) : string :=
  let path := if strings.HasPrefix path slash then path else "/" +:+ path in
  let path := if strings.HasSuffix path slash then path else path +:+ "/" in
  BaseURL +:+ "/id" +:+ path.

Definition GetConfigURL (path : string) : string :=
  let path := if strings.HasPrefix path slash then path else "/" +:+ path in
  let path := if strings.HasSuffix path slash then path else path +:+ "/" in
  BaseURL +:+ "/config" +:+ path.

(** Decoding a response into [map[string]interface{}]: status 200 and a
    body that is a JSON object, or [null] (which leaves the map nil). *)
Definition decode_map (resp : Response)
  : option (list (string * Json)) + error :=
  match resp with
  | NetError => inr (Wrapped "get" RequestFailed)
  | Reply status body =>
      if (status =? 200)%Z then
        match body with
        | Some (JObject o) => inl (Some o)
        | Some JNull => inl None
        | _ => inr (Wrapped "decode" BadJSON)
        end
      else inr (BadStatus status None)
  end.

(** The error, if any, that [sendRequest] makes of a response. *)
Definition send_error (resp : Response) : option error :=
  match resp with
  | NetError => Some (Wrapped "send" RequestFailed)
  | Reply status body =>
      if (status <? 200)%Z || (300 <=? status)%Z then
        match body with
        | Some (JObject o) =>
            match field "error" o with
            | Some (JString s) => Some (BadStatus status (Some s))
            | _ => Some (BadStatus status None)
            end
        | _ => Some (BadStatus status None)
        end
      else None
  end.

Definition delete_error (resp : Response) : option error :=
  match resp with
  | NetError => Some (Wrapped "delete" RequestFailed)
  | Reply status _ =>
      if negb (status =? 200)%Z && negb (status =? 204)%Z
      then Some (BadStatus status None) else None
  end.

Section client.
Context {W : Type} {R : Remote W}.

Definition GetByID (path : string)
  : M W (option (list (string * Json)) + error) :=
  fun c =>
    let url := GetIDURL path in
    (decode_map (do_get url (remote c)),
     mkConn (remote c) (issued c ++ [Get url])).

Definition GetConfig (path : string)
  : M W (option (list (string * Json)) + error) :=
  fun c =>
    let url := GetConfigURL path in
    (decode_map (do_get url (remote c)),
     mkConn (remote c) (issued c ++ [Get url])).

Definition HasID (id : string) : M W bool :=
  bind (GetByID id) (fun r =>
    ret match r with inl _ => true | inr _ => false end).

Definition HasPath (path : string) : M W bool :=
  bind (GetConfig path) (fun r =>
    ret match r with inl _ => true | inr _ => false end).

Definition sendRequest (method url : string) (data : Json)
  : M W (option error) :=
  fun c =>
    let method := strings.ToUpper method in
    let '(resp, w) := do_send method url data (remote c) in
    (send_error resp, mkConn w (issued c ++ [Send method url data])).

Definition PutByID (data : Json) (path method : string)
  : M W (option error) :=
  sendRequest method (GetIDURL path) data.

Definition PutConfig (data : Json) (path method : string)
  : M W (option error) :=
  sendRequest method (GetConfigURL path) data.

Definition DeleteByID (id : string) : M W (option error) :=
  fun c =>
    let url := GetIDURL id in
    let '(resp, w) := do_delete url (remote c) in
    (delete_error resp, mkConn w (issued c ++ [Delete url])).

End client.

End api.

(** ** [internal/config] *)
Module config.
Import api.

(** [NestedSetDict]: the loop over [keys[:len(keys)-1]] followed by the
    final assignment.  [key] is the key being visited and [rest] the keys
    after it; the map returned is [current] after the in-place updates. *)
Fixpoint NestedSetDict_from (current : gmap string Value) (value : Value)
    (key : string) (rest : list string) : gmap string Value :=
  match rest with
  | [] => <[key := value]> current
  | next :: rest' =>
      let current :=
        match current !! key with
        | None | Some VNil => <[key := VMap ∅]> current
        | Some _ => current
        end in
      match current !! key with
      | Some (VMap nested) =>
          <[key := VMap (NestedSetDict_from nested value next rest')]> current
      | _ =>
          <[key := VMap (NestedSetDict_from ∅ value next rest')]> current
      end
  end.

(** A nil map is [None]. *)
Definition NestedSetDict (dict : option (gmap string Value)) (value : Value)
    (keys : list string) : option (gmap string Value) :=
  match keys with
  | [] => dict
  | key :: rest =>
      let dict := match dict with None => ∅ | Some d => d end in
      Some (NestedSetDict_from dict value key rest)
  end.

(** Reading back along a key sequence: [m[k0][k1]...[kn]], every step but
    the last through a [map[string]interface{}]. *)
Fixpoint lookup_from (m : gmap string Value) (key : string)
    (rest : list string) : option Value :=
  match rest with
  | [] => m !! key
  | next :: rest' =>
      match m !! key with
      | Some (VMap nested) => lookup_from nested next rest'
      | _ => None
      end
  end.

Definition lookup_keys (dict : option (gmap string Value))
    (keys : list string) : option Value :=
  match dict, keys with
  | Some m, key :: rest => lookup_from m key rest
  | _, _ => None
  end.

Definition PathToKeys (path : string) : list string :=
  let path := strings.Trim path slash in
  if String.eqb path "" then [] else strings.Split path slash.

Definition KeysToPath (keys : list string) : string :=
  match keys with
  | [] => "/"
  | _ => "/" +:+ strings.Join keys "/"
  end.

Section manager.
Context {W : Type} {R : Remote W}.

(** The loop of [InitPath]: [i] is the index of [key], [currentKeys]
    the keys appended before it. *)
Fixpoint InitPath_loop (keys : list string) (i : nat)
    (currentKeys : list string) (skip : Z) : M W (option error) :=
  match keys with
  | [] => ret None
  | key :: keys' =>
      let currentKeys := currentKeys ++ [key] in
      if (Z.of_nat i <? skip)%Z
      then InitPath_loop keys' (S i) currentKeys skip
      else
        let currentPath := KeysToPath currentKeys in
        check (PutConfig (JObject []) currentPath "POST")
              (InitPath_loop keys' (S i) currentKeys skip)
  end.

Definition InitPath (path : string) (skip : Z) : M W (option error) :=
  InitPath_loop (PathToKeys path) 0 [] skip.

End manager.

(** [NestedSetConfig].  The decoding of the response object into a
    [map[string]interface{}] and the encoding of the updated map are
    those of [encoding/json]; they are parameters here. *)
Section nested_config.
Context {W : Type} {R : Remote W}.
Variable Unmarshal : list (string * Json) -> gmap string Value.
Variable Marshal : option (gmap string Value) -> Json.

Definition NestedSetConfig (value : Value) (keys : list string)
  : M W (option error) :=
  bind (GetConfig "/") (fun r =>
    match r with
    | inr err => ret (Some err)
    | inl config =>
        let updatedConfig :=
          NestedSetDict (option_map Unmarshal config) value keys in
        PutConfig (Marshal updatedConfig) "/" "POST"
    end).

End nested_config.

End config.

(** ** Path shapes

    A normalized path is a separator followed by a text that neither
    begins nor ends with a separator (the root path is the separator
    alone). *)
Definition normalized (p : string) : bool :=
  match p with
  | String a q =>
      Ascii.eqb a slash &&
      (String.eqb q "" ||
       negb (strings.HasPrefix q slash) && negb (strings.HasSuffix q slash))
  | EmptyString => false
  end.

(** Empty or made of separators only. *)
Fixpoint separators_only (p : string) : bool :=
  match p with
  | EmptyString => true
  | String a q => Ascii.eqb a slash && separators_only q
  end.

(** A key of a path: non-empty and free of separators. *)
Fixpoint separator_free (k : string) : bool :=
  match k with
  | EmptyString => true
  | String a q => negb (Ascii.eqb a slash) && separator_free q
  end.

Definition valid_key (k : string) : bool :=
  negb (String.eqb k "") && separator_free k.

(** ** [internal/routes] *)
Module routes.
Import api types.

Definition ServersPath : string := "/apps/http/servers".
Definition RoutesPath : string := ServersPath +:+ "/srv0/routes".

(** The route literal of [AddReverseProxy]. *)
Definition reverseProxyRoute (fromHost toURL : string) : Route :=
  mkRoute fromHost
    [mkRouteMatch [fromHost] []]
    [mkHandler "reverse_proxy" [mkUpstream toURL] []]
    true.

(** The route literal of [AddWildcardRoute]. *)
Definition wildcardRoute (domain : string) : Route :=
  mkRoute ("wildcard-" +:+ domain)
    [mkRouteMatch ["*." +:+ domain] []]
    [mkHandler "subroute" [] []]
    true.

(** The route literal of [AddSubReverseProxy]; [Terminal] is left at its
    zero value. *)
Definition subRoute (domain subdomain : string) (ports : list string)
    (host : string) : Route :=
  let routeID := subdomain +:+ "." +:+ domain in
  let host := if String.eqb host "" then "localhost" else host in
  let upstreams := map (fun port => mkUpstream (host +:+ ":" +:+ port)) ports in
  mkRoute routeID
    [mkRouteMatch [routeID] []]
    [mkHandler "reverse_proxy" upstreams []]
    false.

(** The type switch of [AddSubReverseProxyWithPorts] on one element of a
    [[]interface{}]: the port appended for it, if any. *)
Definition portList_element (port : Value) : list string :=
  match port with
  | VString p => [p]
  | VInt p => [strconv.Itoa p]
  | VFloat64 p => [strconv.Itoa (float64_to_int p)]
  | _ => []
  end.

(** The element types the inner switch has a case for. *)
Definition supported_element (v : Value) : bool :=
  match v with
  | VString _ | VInt _ | VFloat64 _ => true
  | _ => false
  end.

(** The outer type switch of [AddSubReverseProxyWithPorts]. *)
Definition portList (ports : Value) : list string + error :=
  match ports with
  | VString v => inl [v]
  | VInt v => inl [strconv.Itoa v]
  | VStrings v => inl v
  | VInts v => inl (map strconv.Itoa v)
  | VList v => inl (concat (map portList_element v))
  | _ => inr (UnsupportedPortType ports)
  end.

Section manager.
Context {W : Type} {R : Remote W}.

Definition InitRoutes (serverName : string) (skip : Z)
  : M W (option error) :=
  bind (HasPath ServersPath) (fun exists_ =>
    if exists_ then ret None
    else
      check (config.InitPath ServersPath skip)
        (let serverConfig :=
           mkHTTPServer [":80"; ":443"] [] ["h1"; "h2"] in
         let serverPath := ServersPath +:+ "/" +:+ serverName in
         PutConfig (MarshalHTTPServer serverConfig) serverPath "POST")).

Definition AddRoute (route : Route) : M W (option error) :=
  PutConfig (MarshalRoute route) RoutesPath "POST".

Definition DeleteByID (id : string) : M W (option error) :=
  api.DeleteByID id.

Definition AddReverseProxy (fromHost toURL : string)
  : M W (option error) :=
  bind (HasID fromHost) (fun exists_ =>
    let add := AddRoute (reverseProxyRoute fromHost toURL) in
    if exists_ then
      bind (api.DeleteByID fromHost) (fun err =>
        match err with
        | Some e => ret (Some (Wrapped "delete existing route" e))
        | None => add
        end)
    else add).

Definition AddWildcardRoute (domain : string) : M W (option error) :=
  AddRoute (wildcardRoute domain).

Definition AddSubReverseProxy (domain subdomain : string)
    (ports : list string) (host : string) : M W (option error) :=
  let wildcardID := "wildcard-" +:+ domain in
  let newRoute := subRoute domain subdomain ports host in
  let subroutePath := wildcardID +:+ "/handle/0/routes/..." in
  PutByID (JArray [MarshalRoute newRoute]) subroutePath "POST".

Definition AddSubReverseProxyWithPorts (domain subdomain : string)
    (ports : Value) (host : string) : M W (option error) :=
  match portList ports with
  | inr e => ret (Some e)
  | inl l => AddSubReverseProxy domain subdomain l host
  end.

End manager.

End routes.

(** ** [internal/tls] *)
Module tls.
Import api types.

Definition AutomationPath : string := "/apps/tls/automation".

(** [GetACMEConfig] builds a [map[string]interface{}]; what is written
    here is its encoding, in which [json.Marshal] sorts the keys of every
    map. *)
Definition MarshalACMEConfig (token : string) : Json :=
  JObject
    [("challenges",
      JObject
        [("dns",
          JObject
            [("provider",
              JObject [("api_token", JString token);
                       ("name", JString "cloudflare")])])]);
     ("module", JString "acme")].

Definition pkiPath : string := "/apps/pki/certificate_authorities/local".

Section manager.
Context {W : Type} {R : Remote W}.

(** [installTrust] is a [*bool]: [None] is the nil pointer. *)
Definition SetupPKITrust (installTrust : option bool)
  : M W (option error) :=
  match installTrust with
  | None => ret None
  | Some b =>
      check (config.InitPath pkiPath 1)
        (PutConfig (MarshalPKIConfig (mkPKIConfig b)) pkiPath "POST")
  end.

(** The policy list of [AddTLSInternalConfig], as it is marshalled. *)
Definition internalPolicies : Json :=
  JArray [JObject [("issuers",
                    JArray [JObject [("module", JString "internal")]])]].

(** The policy list of [AddACMEConfig], as it is marshalled. *)
Definition acmePolicies (cfToken : string) : Json :=
  JArray [JObject [("issuers", JArray [MarshalACMEConfig cfToken])]].

Definition AddTLSInternalConfig : M W (option error) :=
  bind (HasPath AutomationPath) (fun exists_ =>
    if exists_ then ret None
    else
      check (PutConfig (JObject []) "/" "POST")
        (check (config.InitPath AutomationPath 0)
           (let policiesPath := AutomationPath +:+ "/policies" in
            PutConfig internalPolicies policiesPath "POST"))).

Definition AddACMEConfig (cfToken : string) : M W (option error) :=
  bind (HasPath AutomationPath) (fun exists_ =>
    if exists_ then ret None
    else
      check (PutConfig (JObject []) "/" "POST")
        (check (config.InitPath AutomationPath 0)
           (let policiesPath := AutomationPath +:+ "/policies" in
            PutConfig (acmePolicies cfToken) policiesPath "POST"))).

End manager.

End tls.

(** ** [internal/utils] *)
Module utils.

Definition CloudflareTokenEnv : string := "CADDY_CF_TOKEN".
Definition CloudflareAltEnv : string := "CLOUDFLARE_API_TOKEN".

(** [os.Getenv] is the parameter [getenv]. *)
Definition GetCloudflareToken (getenv : string -> string) : string :=
  let token := getenv CloudflareTokenEnv in
  if negb (String.eqb token "") then token
  else
    let token := getenv CloudflareAltEnv in
    if negb (String.eqb token "") then token else "".

Definition NormalizePath (path : string) : string :=
  if String.eqb path "" then "/"
  else
    let path := if strings.HasPrefix path slash then path else "/" +:+ path in
    let path := if strings.HasSuffix path slash then path else path +:+ "/" in
    path.

Definition CleanPath (path : string) : string :=
  if String.eqb path "" || String.eqb path "/" then "/"
  else
    let path := if strings.HasPrefix path slash then path else "/" +:+ path in
    strings.TrimSuffix path slash.

Definition SplitPath (path : string) : list string :=
  let path := strings.Trim path slash in
  if String.eqb path "" then [] else strings.Split path slash.

(** The loop of [JoinPath]: the trimmed components that are not empty. *)
Fixpoint validComponents (components : list string) : list string :=
  match components with
  | [] => []
  | comp :: rest =>
      let comp := strings.Trim comp slash in
      if negb (String.eqb comp "") then comp :: validComponents rest
      else validComponents rest
  end.

Definition JoinPath (components : list string) : string :=
  match components with
  | [] => "/"
  | _ =>
      match validComponents components with
      | [] => "/"
      | valid => "/" +:+ strings.Join valid "/"
      end
  end.

(** The characters [ValidateHost] refuses: space, slash, backslash. *)
Definition hostForbidden : string :=
  String " " (String "/" (String (ascii_of_nat 92) EmptyString)).

Definition ValidateHost (host : string) : bool :=
  if String.eqb host "" then false
  else if strings.ContainsAny host hostForbidden then false
  else true.

Definition ValidateURL (url : string) : bool :=
  if String.eqb url "" then false
  else if negb (strings.Contains url ":") then false
  else true.

Definition DefaultIfEmpty (value defaultValue : string) : string :=
  if String.eqb value "" then defaultValue else value.

Fixpoint StringSliceContains (slice : list string) (value : string) : bool :=
  match slice with
  | [] => false
  | item :: rest =>
      if String.eqb item value then true else StringSliceContains rest value
  end.

(** [MergeStringMaps]: every entry of every map, in the order of the
    maps, is assigned into a fresh map. *)
Definition MergeStringMaps (maps : list (gmap string string))
  : gmap string string :=
  fold_left
    (fun result m => map_fold (fun k v acc => <[k := v]> acc) result m)
    maps ∅.

End utils.

(** ** The package [fastcaddy] *)
Module fastcaddy.
Import api.

Section facade.
Context {W : Type} {R : Remote W}.

(** [SetupCaddy]; [getenv] stands for [os.Getenv]. *)
Definition SetupCaddy (getenv : string -> string)
    (cfToken serverName : string) (local : bool)
    (installTrust : option bool) : M W (option error) :=
  let tlsConfig : M W (option error) :=
    if local then tls.AddTLSInternalConfig
    else
      let cfToken :=
        if String.eqb cfToken "" then utils.GetCloudflareToken getenv
        else cfToken in
      if negb (String.eqb cfToken "") then tls.AddACMEConfig cfToken
      else ret None in
  check tlsConfig
    (check (tls.SetupPKITrust installTrust)
       (let serverName :=
          if String.eqb serverName "" then "srv0" else serverName in
        routes.InitRoutes serverName 1)).

End facade.

End fastcaddy.

(** ** The remote configuration tree *)

(** Modelled from the spec: the remote store behind the RemoteTreeClient
    interface (an external service, absent from the sources).  It is one
    JSON document addressed by slash-separated paths or by the stable
    identifier (the [@id] field) of an object in it.  A read succeeds
    exactly when the addressed node exists; a POST sets the addressed
    member of an existing parent, or appends to it when that member is a
    list (a final [...] segment appends the elements of the body instead
    of the body itself); a delete by identifier removes the object that
    carries the identifier.  Other methods are refused. *)
Module store.
Import api.

(** An array index is a decimal numeral. *)
Definition parse_index (seg : string) : option nat :=
  match NilEmpty.uint_of_string seg with
  | Some d => Some (Nat.of_uint d)
  | None => None
  end.

Definition index_segment (n : nat) : string :=
  NilEmpty.string_of_uint (Nat.to_uint n).

Fixpoint set_field (key : string) (v : Json) (fields : list (string * Json))
  : list (string * Json) :=
  match fields with
  | [] => [(key, v)]
  | (k, x) :: rest =>
      if String.eqb k key then (k, v) :: rest
      else (k, x) :: set_field key v rest
  end.

Fixpoint remove_field (key : string) (fields : list (string * Json))
  : list (string * Json) :=
  match fields with
  | [] => []
  | (k, x) :: rest =>
      if String.eqb k key then rest else (k, x) :: remove_field key rest
  end.

Definition child (seg : string) (j : Json) : option Json :=
  match j with
  | JObject o => field seg o
  | JArray l => match parse_index seg with
                | Some i => l !! i
                | None => None
                end
  | _ => None
  end.

Fixpoint get_at (path : list string) (j : Json) : option Json :=
  match path with
  | [] => Some j
  | seg :: rest => match child seg j with
                   | Some c => get_at rest c
                   | None => None
                   end
  end.

(** Replace an existing or new member of a node. *)
Definition set_child (seg : string) (v : Json) (j : Json) : option Json :=
  match j with
  | JObject o => Some (JObject (set_field seg v o))
  | JArray l => match parse_index seg with
                | Some i => if (i <? length l)%nat
                            then Some (JArray (<[i := v]> l)) else None
                | None => None
                end
  | _ => None
  end.

(** POST addressed at member [seg] of [parent]. *)
Definition post_child (seg : string) (v : Json) (ellipsis : bool)
    (parent : Json) : option Json :=
  match parent with
  | JObject o =>
      match field seg o with
      | Some (JArray arr) =>
          if ellipsis then
            match v with
            | JArray vs => Some (JObject (set_field seg (JArray (arr ++ vs)) o))
            | _ => None
            end
          else Some (JObject (set_field seg (JArray (arr ++ [v])) o))
      | _ => Some (JObject (set_field seg v o))
      end
  | JArray l =>
      match parse_index seg with
      | Some i => if (i <=? length l)%nat
                  then Some (JArray (take i l ++ v :: drop i l)) else None
      | None => None
      end
  | _ => None
  end.

Fixpoint post_at (path : list string) (v : Json) (ellipsis : bool)
    (j : Json) : option Json :=
  match path with
  | [] => Some v
  | [seg] => post_child seg v ellipsis j
  | seg :: rest =>
      match child seg j with
      | Some c => match post_at rest v ellipsis c with
                  | Some c' => set_child seg c' j
                  | None => None
                  end
      | None => None
      end
  end.

Definition delete_child (seg : string) (parent : Json) : option Json :=
  match parent with
  | JObject o => match field seg o with
                 | Some _ => Some (JObject (remove_field seg o))
                 | None => None
                 end
  | JArray l => match parse_index seg with
                | Some i => if (i <? length l)%nat
                            then Some (JArray (delete i l)) else None
                | None => None
                end
  | _ => None
  end.

Fixpoint delete_at (path : list string) (j : Json) : option Json :=
  match path with
  | [] => None
  | [seg] => delete_child seg j
  | seg :: rest =>
      match child seg j with
      | Some c => match delete_at rest c with
                  | Some c' => set_child seg c' j
                  | None => None
                  end
      | None => None
      end
  end.

Definition has_id (id : string) (j : Json) : bool :=
  match j with
  | JObject o => match field "@id" o with
                 | Some (JString s) => String.eqb s id
                 | _ => false
                 end
  | _ => false
  end.

(** The path of the first object, in document order, that carries the
    identifier. *)
Fixpoint find_id (id : string) (j : Json) : option (list string) :=
  match j with
  | JObject o =>
      if has_id id j then Some []
      else (fix members (o : list (string * Json)) :=
              match o with
              | [] => None
              | (k, v) :: o' =>
                  match find_id id v with
                  | Some p => Some (k :: p)
                  | None => members o'
                  end
              end) o
  | JArray l =>
      (fix items (n : nat) (l : list Json) :=
         match l with
         | [] => None
         | v :: l' =>
             match find_id id v with
             | Some p => Some (index_segment n :: p)
             | None => items (S n) l'
             end
         end) 0%nat l
  | _ => None
  end.

(** The two inner loops of [find_id], by name. *)
Definition find_members (id : string)
  : list (string * Json) -> option (list string) :=
  fix members (o : list (string * Json)) :=
    match o with
    | [] => None
    | (k, v) :: o' =>
        match find_id id v with
        | Some p => Some (k :: p)
        | None => members o'
        end
    end.

Definition find_items (id : string)
  : nat -> list Json -> option (list string) :=
  fix items (n : nat) (l : list Json) :=
    match l with
    | [] => None
    | v :: l' =>
        match find_id id v with
        | Some p => Some (index_segment n :: p)
        | None => items (S n) l'
        end
    end.

(** The document with the node at [path] replaced by [v]. *)
Fixpoint put_at (path : list string) (v : Json) (j : Json) : option Json :=
  match path with
  | [] => Some v
  | seg :: rest =>
      match child seg j with
      | Some c => match put_at rest v c with
                  | Some c' => set_child seg c' j
                  | None => None
                  end
      | None => None
      end
  end.

(** A segment that is not a numeral names a member of an object. *)
Definition is_name (seg : string) : bool :=
  match parse_index seg with
  | None => true
  | Some _ => false
  end.

Definition names (path : list string) : bool := forallb is_name path.

(** The keys of [routes.RoutesPath]. *)
Definition routes_keys : list string :=
  ["apps"; "http"; "servers"; "srv0"; "routes"].

(** The address a URL of the endpoint denotes. *)
Inductive Address : Type :=
| ByPath (path : list string)
| ById (id : string) (rest : list string).

Fixpoint strip_prefix (p s : string) : option string :=
  match p, s with
  | EmptyString, _ => Some s
  | String a p', String b s' =>
      if Ascii.eqb a b then strip_prefix p' s' else None
  | _, _ => None
  end.

Definition segments (path : string) : list string :=
  let path := strings.Trim path slash in
  if String.eqb path "" then [] else strings.Split path slash.

Definition parse_url (url : string) : option Address :=
  match strip_prefix BaseURL url with
  | None => None
  | Some rest =>
      match strip_prefix "/config/" rest with
      | Some p => Some (ByPath (segments p))
      | None =>
          match strip_prefix "/id/" rest with
          | Some p => match segments p with
                      | id :: rest => Some (ById id rest)
                      | [] => None
                      end
          | None => None
          end
      end
  end.

(** The path an address resolves to in the current document. *)
Definition resolve (a : Address) (doc : Json) : option (list string) :=
  match a with
  | ByPath p => Some p
  | ById id rest => match find_id id doc with
                    | Some p => Some (p ++ rest)
                    | None => None
                    end
  end.

Definition not_found : Response :=
  Reply 404 (Some (JObject [("error", JString "not found")])).

Definition refused : Response :=
  Reply 405 (Some (JObject [("error", JString "method not allowed")])).

Definition ok : Response := Reply 200 None.

(** Modelled from the spec: [read(path)] and [readById(id)] return the
    addressed node, or fail when there is none. *)
Definition serve_get (url : string) (doc : Json) : Response :=
  match parse_url url with
  | None => not_found
  | Some a =>
      match resolve a doc with
      | None => not_found
      | Some p => match get_at p doc with
                  | Some v => Reply 200 (Some v)
                  | None => not_found
                  end
      end
  end.

(** A final [...] segment asks for the elements of the body to be
    appended. *)
Definition split_ellipsis (p : list string) : list string * bool :=
  match last p with
  | Some "..." => (removelast p, true)
  | _ => (p, false)
  end.

(** Modelled from the spec: [write(path, value, insert)] and
    [writeById(id, value, insert)], the POST mode, which is the only one
    the client uses. *)
Definition serve_send (method url : string) (body : Json) (doc : Json)
  : Response * Json :=
  if negb (String.eqb method "POST") then (refused, doc)
  else
    match parse_url url with
    | None => (not_found, doc)
    | Some a =>
        match resolve a doc with
        | None => (not_found, doc)
        | Some p =>
            let '(p, ellipsis) := split_ellipsis p in
            match post_at p body ellipsis doc with
            | Some doc' => (ok, doc')
            | None => (not_found, doc)
            end
        end
    end.

(** Modelled from the spec: [deleteById(id)] removes the object carrying
    the identifier, or fails when there is none. *)
Definition serve_delete (url : string) (doc : Json) : Response * Json :=
  match parse_url url with
  | None => (not_found, doc)
  | Some a =>
      match resolve a doc with
      | None => (not_found, doc)
      | Some p => match delete_at p doc with
                  | Some doc' => (ok, doc')
                  | None => (not_found, doc)
                  end
      end
  end.

#[global] Instance store_remote : Remote Json := {|
  do_get := serve_get;
  do_send := serve_send;
  do_delete := serve_delete
|}.

(** A fresh connection to a store holding [doc]. *)
Definition connect (doc : Json) : Conn Json := mkConn doc [].

End store.

(** ** Request sequences

    The requests the managers are expected to issue, written without
    reference to the remote state. *)
Module expected.
Import api.

(** The indices of the levels [InitPath] handles: those not below
    [skip], in increasing order. *)
Definition levels (keys : list string) (skip : Z) : list nat :=
  List.filter (fun i => negb (Z.of_nat i <? skip)%Z) (seq 0 (length keys)).

(** The write for level [i]: an empty object POSTed at the sub-path of
    the first [i + 1] keys. *)
Definition level_write (keys : list string) (i : nat) : Request :=
  Send "POST" (GetConfigURL (config.KeysToPath (take (S i) keys)))
       (JObject []).

Definition level_writes (keys : list string) (skip : Z) : list Request :=
  map (level_write keys) (levels keys skip).

(** The requests of [SetupPKITrust] with flag [b]. *)
Definition pki_writes (b : bool) : list Request :=
  [Send "POST" "http://localhost:2019/config/apps/pki/" (JObject []);
   Send "POST" "http://localhost:2019/config/apps/pki/certificate_authorities/"
        (JObject []);
   Send "POST"
        "http://localhost:2019/config/apps/pki/certificate_authorities/local/"
        (JObject []);
   Send "POST"
        "http://localhost:2019/config/apps/pki/certificate_authorities/local/"
        (JObject [("install_trust", JBool b)])].

(** What the loop of [InitPath] sends when no write fails. *)
Fixpoint loop_writes (keys : list string) (i : nat)
    (currentKeys : list string) (skip : Z) : list Request :=
  match keys with
  | [] => []
  | key :: keys' =>
      let currentKeys := currentKeys ++ [key] in
      if (Z.of_nat i <? skip)%Z
      then loop_writes keys' (S i) currentKeys skip
      else Send "POST" (GetConfigURL (config.KeysToPath currentKeys)) (JObject [])
             :: loop_writes keys' (S i) currentKeys skip
  end.

(** The requests of one [AddReverseProxy] that returns nil: the probing
    read, the delete when the identifier existed, the append. *)
Definition upsert_requests (id : string) (existed : bool) (body : Json)
  : list Request :=
  Get (GetIDURL id) ::
  (if existed then [Delete (GetIDURL id)] else []) ++
  [Send "POST" (GetConfigURL routes.RoutesPath) body].

Definition is_delete (r : Request) : bool :=
  match r with
  | Delete _ => true
  | _ => false
  end.

Definition is_write (r : Request) : bool :=
  match r with
  | Get _ => false
  | Send _ _ _ | Delete _ => true
  end.

End expected.

(** ** Sample remote documents *)
Module sample.
Import api.

(** Only the top-level namespace exists. *)
Definition apps_only : Json := JObject [("apps", JObject [])].

(** The document once the server [srv0] has been set up, holding the
    routes [rs]. *)
Definition with_routes (rs : list Json) : Json :=
  JObject
    [("apps",
      JObject
        [("http",
          JObject
            [("servers",
              JObject
                [("srv0",
                  JObject
                    [("listen", JArray [JString ":80"; JString ":443"]);
                     ("routes", JArray rs);
                     ("protocols", JArray [JString "h1"; JString "h2"])])])])])].

(** The document [AddTLSInternalConfig] leaves. *)
Definition tls_policies (policies : Json) : Json :=
  JObject
    [("apps",
      JObject
        [("tls",
          JObject [("automation", JObject [("policies", policies)])])])].

(** A document whose root object carries an identifier. *)
Definition root_with_id (id : string) : Json :=
  JObject [("@id", JString id)].

End sample.

(** ** The wildcard composition scenario, as a Go value *)
Module scenario.
Import types.

Definition wildcard_id : string := "wildcard-example.com".

(** A [float64] holding 8080.0 (mantissa [8080 * 2^40], exponent
    [-40]) and one holding 8080.75. *)
Definition float_8080 : spec_float :=
  S754_finite false (8080 * 2 ^ 40) (-40).

Definition float_8080_75 : spec_float :=
  S754_finite false (32323 * 2 ^ 38) (-40).

(** The sub-route for [api.example.com] with its two upstreams. *)
Definition api_route : Route :=
  mkRoute "api.example.com"
    [mkRouteMatch ["api.example.com"] []]
    [mkHandler "reverse_proxy"
       [mkUpstream "127.0.0.1:8080"; mkUpstream "127.0.0.1:8081"] []]
    false.

(** The wildcard route for [example.com] holding that sub-route. *)
Definition composed : Route :=
  mkRoute "wildcard-example.com"
    [mkRouteMatch ["*.example.com"] []]
    [mkHandler "subroute" [] [api_route]]
    true.

End scenario.

(** A trimmed component: non-empty, with no separator at either end. *)
Definition trimmed (k : string) : bool :=
  negb (String.eqb k "") &&
  negb (strings.HasPrefix k slash) && negb (strings.HasSuffix k slash).

(** ** Documents and routes of the set-up and wildcard scenarios *)
Module layout.
Import api types.

(** The keys of [routes.ServersPath]. *)
Definition servers_keys : list string := ["apps"; "http"; "servers"].

(** A server name that addresses one member of the servers object: a
    valid key that is neither a numeral nor the append marker. *)
Definition server_name_ok (name : string) : bool :=
  valid_key name && store.is_name name && negb (String.eqb name "...").

(** The server configuration [InitRoutes] writes, holding the routes
    [rs]. *)
Definition server_json (rs : list Json) : Json :=
  JObject [("listen", JArray [JString ":80"; JString ":443"]);
           ("routes", JArray rs);
           ("protocols", JArray [JString "h1"; JString "h2"])].

(** The PKI member [SetupPKITrust] writes under [apps], if any. *)
Definition pki_member (installTrust : option bool)
  : list (string * Json) :=
  match installTrust with
  | None => []
  | Some b =>
      [("pki",
        JObject
          [("certificate_authorities",
            JObject [("local", JObject [("install_trust", JBool b)])])])]
  end.

(** The document a local [SetupCaddy] leaves on a remote without TLS
    automation, with the routes [rs] in the server [name]. *)
Definition after_setup (installTrust : option bool) (name : string)
    (rs : list Json) : Json :=
  JObject
    [("apps",
      JObject
        ([("tls",
           JObject
             [("automation",
               JObject [("policies", tls.internalPolicies)])])] ++
         pki_member installTrust ++
         [("http",
           JObject [("servers", JObject [(name, server_json rs)])])]))].

(** The requests of [AddTLSInternalConfig] and [AddACMEConfig] on a
    remote without TLS automation: the probing read, the reset of the
    root, the three levels of the automation path, the policies. *)
Definition tls_requests (policies : Json) : list Request :=
  [Get "http://localhost:2019/config/apps/tls/automation/";
   Send "POST" "http://localhost:2019/config/" (JObject []);
   Send "POST" "http://localhost:2019/config/apps/" (JObject []);
   Send "POST" "http://localhost:2019/config/apps/tls/" (JObject []);
   Send "POST" "http://localhost:2019/config/apps/tls/automation/"
        (JObject []);
   Send "POST" "http://localhost:2019/config/apps/tls/automation/policies/"
        policies].

(** The wildcard route of [domain] holding the sub-routes [subs]. *)
Definition wildcardWith (domain : string) (subs : list Route) : Route :=
  mkRoute ("wildcard-" +:+ domain)
    [mkRouteMatch ["*." +:+ domain] []]
    [mkHandler "subroute" [] subs]
    true.

(** The request of one [AddSubReverseProxy]. *)
Definition subroute_request (domain subdomain : string)
    (ports : list string) (host : string) : Request :=
  Send "POST"
    (GetIDURL (("wildcard-" +:+ domain) +:+ "/handle/0/routes/..."))
    (JArray [MarshalRoute (routes.subRoute domain subdomain ports host)]).

End layout.

(* ===================================================================== *)
(** * Properties *)
(* ===================================================================== *)

(** ** PathCodec *)
Section path_codec.
Import strings config.

Lemma Split_nonempty (s : string) (sep : ascii) : Split s sep <> [].
Proof.
  destruct s as [|a s]; simpl; [discriminate|].
  destruct (Ascii.eqb a sep); [discriminate|].
  destruct (Split s sep); discriminate.
Qed.

Lemma Join_cons (a : string) (l : list string) (sep : string) :
  l <> [] -> Join (a :: l) sep = a +:+ sep +:+ Join l sep.
Proof. destruct l; [congruence | reflexivity]. Qed.

Lemma Join_Split (s : string) : Join (Split s slash) "/" = s.
Proof.
  induction s as [|a s IH]; [reflexivity|].
  simpl Split. destruct (Ascii.eqb_spec a slash) as [->|Hne].
  - rewrite Join_cons by apply Split_nonempty. now rewrite IH.
  - pose proof (Split_nonempty s slash) as Hs.
    destruct (Split s slash) as [|h t]; [congruence|].
    destruct t as [|h' t]; simpl in *; now rewrite <- IH.
Qed.

Lemma trimRightByte_id (s : string) (c : ascii) :
  HasSuffix s c = false -> trimRightByte s c = s.
Proof.
  induction s as [|a s IH]; [reflexivity|].
  destruct s as [|b s].
  - simpl. now intros ->.
  - intros H. change (HasSuffix (String b s) c = false) in H.
    simpl trimRightByte in *. now rewrite (IH H).
Qed.

Lemma trimLeftByte_id (s : string) (c : ascii) :
  HasPrefix s c = false -> trimLeftByte s c = s.
Proof. destruct s; simpl; [easy | now intros ->]. Qed.

Lemma trimRightByte_separators (s : string) :
  separators_only s = true -> trimRightByte s slash = "".
Proof.
  induction s as [|a s IH]; [reflexivity|]. simpl.
  intros [Ha Hs]%andb_prop. now rewrite (IH Hs), Ha.
Qed.

Lemma eqb_empty (s : string) : String.eqb s "" = true <-> s = "".
Proof. apply String.eqb_eq. Qed.

Lemma PathToKeys_trimmed (q : string) :
  q <> "" -> HasPrefix q slash = false -> HasSuffix q slash = false ->
  PathToKeys ("/" +:+ q) = Split q slash.
Proof.
  intros Hq Hp Hs. unfold PathToKeys, Trim.
  change ("/" +:+ q) with (String slash q).
  assert (Hr : trimRightByte (String slash q) slash = String slash q).
  { simpl. rewrite (trimRightByte_id _ _ Hs). destruct q; congruence. }
  rewrite Hr. simpl trimLeftByte.
  rewrite (trimLeftByte_id _ _ Hp).
  destruct (String.eqb_spec q ""); congruence.
Qed.

Lemma KeysToPath_PathToKeys (p : string) :
  normalized p = true -> KeysToPath (PathToKeys p) = p.
Proof.
  destruct p as [|a q]; [discriminate|]. simpl normalized.
  intros [Ha Hq]%andb_prop. apply Ascii.eqb_eq in Ha as ->.
  apply orb_prop in Hq as [Hq|[Hp Hs]%andb_prop].
  - apply eqb_empty in Hq as ->. reflexivity.
  - apply negb_true_iff in Hp, Hs.
    destruct (String.eqb_spec q "") as [->|Hne]; [reflexivity|].
    change (String slash q) with ("/" +:+ q).
    rewrite PathToKeys_trimmed by assumption.
    unfold KeysToPath. pose proof (Split_nonempty q slash).
    destruct (Split q slash) eqn:E; [congruence|].
    rewrite <- E, Join_Split. reflexivity.
Qed.

Lemma PathToKeys_separators (p : string) :
  separators_only p = true -> PathToKeys p = [].
Proof.
  intros H. unfold PathToKeys, Trim.
  now rewrite (trimRightByte_separators _ H).
Qed.

(** Paths built from valid keys are normalized, and decode to their
    keys. *)
Lemma HasSuffix_append (a b : string) (c : ascii) :
  b <> "" -> HasSuffix (a +:+ b) c = HasSuffix b c.
Proof.
  intros Hb. induction a as [|x a IH]; [reflexivity|].
  change (String x a +:+ b) with (String x (a +:+ b)).
  destruct (a +:+ b) as [|y s] eqn:E.
  - destruct a; [change ("" +:+ b) with b in E; congruence | discriminate].
  - exact IH.
Qed.

Lemma Split_append_separator (k s : string) :
  separator_free k = true ->
  Split (k +:+ "/" +:+ s) slash = k :: Split s slash.
Proof.
  induction k as [|a k IH]; [reflexivity|]. simpl.
  intros [Ha Hk]%andb_prop. apply negb_true_iff in Ha.
  now rewrite Ha, (IH Hk).
Qed.

Lemma Split_separator_free (k : string) :
  separator_free k = true -> Split k slash = [k].
Proof.
  induction k as [|a k IH]; [reflexivity|]. simpl.
  intros [Ha Hk]%andb_prop. apply negb_true_iff in Ha.
  now rewrite Ha, (IH Hk).
Qed.

Lemma valid_key_parts (k : string) :
  valid_key k = true ->
  k <> "" /\ separator_free k = true /\
  HasPrefix k slash = false /\ HasSuffix k slash = false.
Proof.
  unfold valid_key. intros [Hne Hk]%andb_prop.
  apply negb_true_iff, String.eqb_neq in Hne.
  repeat split; [done..| |].
  - destruct k as [|a k]; [done|]. simpl in *.
    apply andb_prop in Hk as [Ha _]. now apply negb_true_iff in Ha.
  - clear Hne. induction k as [|a k IH]; [reflexivity|]. simpl in *.
    apply andb_prop in Hk as [Ha Hk]. apply negb_true_iff in Ha.
    destruct k; [exact Ha | exact (IH Hk)].
Qed.

Lemma Join_valid_keys (k : string) (ks : list string) :
  forallb valid_key (k :: ks) = true ->
  Join (k :: ks) "/" <> "" /\
  HasPrefix (Join (k :: ks) "/") slash = false /\
  HasSuffix (Join (k :: ks) "/") slash = false /\
  Split (Join (k :: ks) "/") slash = k :: ks.
Proof.
  revert k. induction ks as [|k' ks IH]; intros k H.
  - simpl in H. apply andb_prop in H as [Hk _].
    destruct (valid_key_parts _ Hk) as (Hne & Hf & Hp & Hs).
    simpl. now rewrite (Split_separator_free _ Hf).
  - change (forallb valid_key (k :: k' :: ks))
      with (valid_key k && forallb valid_key (k' :: ks)) in H.
    apply andb_prop in H as [Hk H].
    destruct (valid_key_parts _ Hk) as (Hne & Hf & Hp & Hs).
    destruct (IH k' H) as (Jne & Jp & Js & Jsplit).
    rewrite Join_cons by discriminate.
    repeat split.
    + destruct k; [done | discriminate].
    + destruct k; [done | exact Hp].
    + rewrite HasSuffix_append.
      * change ("/" +:+ Join (k' :: ks) "/")
          with (String slash (Join (k' :: ks) "/")).
        destruct (Join (k' :: ks) "/") eqn:E; [done | exact Js].
      * discriminate.
    + now rewrite (Split_append_separator _ _ Hf), Jsplit.
Qed.

Lemma KeysToPath_normalized (keys : list string) :
  forallb valid_key keys = true -> normalized (KeysToPath keys) = true.
Proof.
  destruct keys as [|k ks]; [reflexivity|]. intros H.
  destruct (Join_valid_keys k ks H) as (Jne & Jp & Js & _).
  unfold KeysToPath.
  change ("/" +:+ Join (k :: ks) "/") with (String slash (Join (k :: ks) "/")).
  unfold normalized. now rewrite Ascii.eqb_refl, Jp, Js, orb_true_r.
Qed.

Lemma PathToKeys_KeysToPath (keys : list string) :
  forallb valid_key keys = true -> PathToKeys (KeysToPath keys) = keys.
Proof.
  destruct keys as [|k ks]; [reflexivity|]. intros H.
  destruct (Join_valid_keys k ks H) as (Jne & Jp & Js & Jsplit).
  unfold KeysToPath. now rewrite PathToKeys_trimmed.
Qed.

End path_codec.

(** C7. For every normalized path [p], encoding the decoded keys gives [p]
    back; decoding an empty or separator-only input gives the empty key
    sequence; encoding the empty sequence gives ["/"], and encoding any
    other sequence gives ["/"] followed by the keys joined by ["/"]. *)
Theorem path_codec_round_trip :
  (forall p : string,
      normalized p = true -> config.KeysToPath (config.PathToKeys p) = p) /\
  (forall p : string,
      separators_only p = true -> config.PathToKeys p = []) /\
  config.KeysToPath [] = "/" /\
  (forall (k : string) (ks : list string),
      config.KeysToPath (k :: ks) = "/" +:+ strings.Join (k :: ks) "/").
Proof.
  split; [exact KeysToPath_PathToKeys|].
  split; [exact PathToKeys_separators|].
  split; reflexivity.
Qed.

Lemma path_codec_round_trip_witness :
  normalized "/apps/http/servers" = true /\
  separators_only "///" = true /\
  config.KeysToPath (config.PathToKeys "/apps/http/servers")
    = "/apps/http/servers" /\
  config.PathToKeys "///" = [].
Proof.
  split; [reflexivity|]. split; [reflexivity|]. split.
  - apply (proj1 path_codec_round_trip). reflexivity.
  - apply (proj1 (proj2 path_codec_round_trip)). reflexivity.
Defined.

(** ** NestedTree *)
Section nested_tree.
Import config.

Lemma lookup_NestedSetDict_from (ks : list string) :
  forall (m : gmap string Value) (v : Value) (k : string),
    lookup_from (NestedSetDict_from m v k ks) k ks = Some v.
Proof.
  induction ks as [|next rest IH]; intros m v k; simpl.
  - apply lookup_insert_eq.
  - set (m1 := match m !! k with
               | None | Some VNil => <[k := VMap ∅]> m
               | Some _ => m
               end).
    destruct (m1 !! k) as [[]|]; rewrite lookup_insert_eq; apply IH.
Qed.

(** A string found on the way is replaced by a map. *)
Lemma NestedSetDict_overwrites_scalar :
  NestedSetDict (Some {["apps" := VString "x"]}) (VBool true) ["apps"; "tls"]
    = Some {["apps" := VMap {["tls" := VBool true]}]}.
Proof.
  simpl. rewrite lookup_singleton_eq. simpl. rewrite lookup_singleton_eq.
  now rewrite insert_singleton_eq, insert_empty.
Qed.

(** A nil root is replaced by a fresh map. *)
Lemma NestedSetDict_nil_root :
  NestedSetDict None (VBool true) ["apps"; "tls"]
    = Some {["apps" := VMap {["tls" := VBool true]}]}.
Proof.
  simpl. rewrite lookup_empty. simpl. rewrite lookup_insert_eq.
  now rewrite insert_insert_eq, !insert_empty.
Qed.

End nested_tree.

(** C4. For every root map, non-empty key sequence and value, looking the
    keys up in the result of [NestedSetDict] yields exactly the value,
    whatever the keys held before (a non-container on the way is replaced
    by a container); for the empty key sequence the root is returned
    unchanged. *)
Theorem NestedSetDict_lookup :
  (forall (r : option (gmap string Value)) (k : string) (ks : list string)
          (v : Value),
      config.lookup_keys (config.NestedSetDict r v (k :: ks)) (k :: ks)
        = Some v) /\
  (forall (r : option (gmap string Value)) (v : Value),
      config.NestedSetDict r v [] = r).
Proof.
  split; [|reflexivity].
  intros r k ks v. simpl. apply lookup_NestedSetDict_from.
Qed.

(** ** PathInitializer *)
Section path_initializer.
Import api config expected.
Context {W : Type} {R : Remote W}.

Lemma sendRequest_issued (method url : string) (data : Json) (c : Conn W) :
  issued (snd (sendRequest method url data c))
    = issued c ++ [Send (strings.ToUpper method) url data].
Proof.
  unfold sendRequest. now destruct (do_send _ url data (remote c)).
Qed.

(** The loop issues a prefix of [loop_writes], all of it when it returns
    nil. *)
Lemma InitPath_loop_issued (keys : list string) :
  forall (i : nat) (cur : list string) (skip : Z) (c : Conn W),
  exists n : nat,
    issued (snd (InitPath_loop keys i cur skip c))
      = issued c ++ take n (loop_writes keys i cur skip) /\
    (fst (InitPath_loop keys i cur skip c) = None ->
     take n (loop_writes keys i cur skip) = loop_writes keys i cur skip).
Proof.
  induction keys as [|key keys IH]; intros i cur skip c; simpl.
  - exists 0%nat. now rewrite app_nil_r.
  - destruct (Z.of_nat i <? skip)%Z; [apply IH|].
    unfold check, bind, PutConfig.
    pose proof (sendRequest_issued "POST"
      (GetConfigURL (KeysToPath (cur ++ [key]))) (JObject []) c) as Hs.
    destruct (sendRequest _ _ _ c) as [[e|] c1]; simpl in *.
    + exists 1%nat. simpl. rewrite take_0. split; [exact Hs | discriminate].
    + destruct (IH (S i) (cur ++ [key]) skip c1) as (n & Hn & Hall).
      exists (S n). simpl. rewrite Hn, Hs, <- app_assoc. split; [done|].
      intros H. now rewrite (Hall H).
Qed.

Lemma loop_writes_levels (keys : list string) (skip : Z) :
  forall (i : nat) (rest : list string),
    drop i keys = rest ->
    loop_writes rest i (take i keys) skip
      = map (level_write keys)
            (List.filter (fun j => negb (Z.of_nat j <? skip)%Z)
                         (seq i (length rest))).
Proof.
  intros i rest. revert i. induction rest as [|key rest IH]; intros i Hd.
  - reflexivity.
  - assert (Hk : keys !! i = Some key).
    { pose proof (lookup_drop keys i 0) as H.
      rewrite Hd, Nat.add_0_r in H. now rewrite <- H. }
    assert (Ht : take i keys ++ [key] = take (S i) keys)
      by (symmetry; now apply take_S_r).
    assert (Hd' : drop (S i) keys = rest).
    { rewrite <- Nat.add_1_r, <- drop_drop, Hd. reflexivity. }
    simpl. rewrite Ht, (IH (S i) Hd').
    destruct (Z.of_nat i <? skip)%Z; reflexivity.
Qed.

Lemma InitPath_issued (path : string) (skip : Z) (c : Conn W) :
  exists n : nat,
    issued (snd (InitPath path skip c))
      = issued c ++ take n (level_writes (PathToKeys path) skip) /\
    (fst (InitPath path skip c) = None ->
     take n (level_writes (PathToKeys path) skip)
       = level_writes (PathToKeys path) skip).
Proof.
  unfold InitPath, level_writes, levels.
  rewrite <- (loop_writes_levels (PathToKeys path) skip 0 (PathToKeys path))
    by reflexivity.
  apply InitPath_loop_issued.
Qed.

Lemma levels_not_below (keys : list string) (skip : Z) :
  Forall (fun i => (skip <= Z.of_nat i)%Z /\ (i < length keys)%nat)
         (levels keys skip).
Proof.
  unfold levels. apply List.Forall_forall. intros i Hi.
  apply filter_In in Hi as [Hin Hb]. apply in_seq in Hin.
  apply negb_true_iff, Z.ltb_ge in Hb. lia.
Qed.

Lemma filter_seq_sorted (f : nat -> bool) (n i : nat) :
  StronglySorted lt (List.filter f (seq i n)).
Proof.
  revert i. induction n as [|n IH]; intros i; simpl; [constructor|].
  destruct (f i); [|apply IH].
  constructor; [apply IH|].
  apply List.Forall_forall. intros j Hj.
  apply filter_In in Hj as [Hj _]. apply in_seq in Hj. lia.
Qed.

End path_initializer.

Section path_initializer_claims.
Import api config expected.

Lemma take_fmap_all {A B : Type} (f : A -> B) (l : list A) (n : nat) :
  take n (map f l) = map f l -> take n l = l.
Proof.
  intros H. apply take_ge.
  apply (f_equal length) in H.
  rewrite length_take, length_map in H. lia.
Qed.

(** C8. [InitPath] neither probes nor writes a level whose index is
    below [skip]: the requests it issues are the writes of the levels
    [skip], [skip + 1], ... in increasing order (all of them when it
    returns nil, a prefix of them when a write fails), and the write for
    level [i] is addressed at the sub-path of the first [i + 1] keys. *)
Theorem InitPath_levels_in_order :
  forall (W : Type) (R : Remote W) (path : string) (skip : Z) (c : Conn W),
    let keys := PathToKeys path in
    (exists n : nat,
        issued (snd (InitPath path skip c))
          = issued c ++ map (level_write keys) (take n (levels keys skip)) /\
        (fst (InitPath path skip c) = None ->
         take n (levels keys skip) = levels keys skip)) /\
    Forall (fun i => (skip <= Z.of_nat i)%Z /\ (i < length keys)%nat)
           (levels keys skip) /\
    StronglySorted lt (levels keys skip) /\
    (forall i : nat,
        level_write keys i
          = Send "POST" (GetConfigURL (KeysToPath (take (S i) keys)))
                 (JObject [])).
Proof.
  intros W R path skip c keys. split; [|split; [|split]].
  - destruct (InitPath_issued path skip c) as (n & Hn & Hall).
    exists n. unfold level_writes in *. fold keys in Hn, Hall.
    rewrite <- fmap_take in Hn. split; [exact Hn|].
    intros H. apply (take_fmap_all (level_write keys)), Hall, H.
  - apply levels_not_below.
  - apply filter_seq_sorted.
  - reflexivity.
Qed.

Lemma InitPath_levels_in_order_witness :
  fst (InitPath "/apps/http/servers" 1 (store.connect sample.apps_only))
    = None /\
  issued (snd (InitPath "/apps/http/servers" 1
                 (store.connect sample.apps_only)))
    = [Send "POST" "http://localhost:2019/config/apps/http/" (JObject []);
       Send "POST" "http://localhost:2019/config/apps/http/servers/"
            (JObject [])].
Proof.
  split; [reflexivity|].
  destruct (InitPath_levels_in_order Json store.store_remote
              "/apps/http/servers" 1 (store.connect sample.apps_only))
    as [(n & Hn & Hall) _].
  rewrite Hn, (Hall eq_refl). reflexivity.
Defined.

(** C1, as amended.  [InitPath] issues no existence probe: every request
    it issues is a POST of an empty object, and when it returns nil it
    has written every level from index [skip] onward, whether or not the
    level existed, and whatever a later call does.  The same holds of a
    second call with the same arguments on the connection the first one
    left: when it returns nil it has issued these writes again. *)
Theorem InitPath_writes_every_level :
  forall (W : Type) (R : Remote W) (path : string) (skip : Z) (c : Conn W),
    let keys := PathToKeys path in
    let r1 := InitPath path skip c in
    let r2 := InitPath path skip (snd r1) in
    (exists new : list Request,
        issued (snd r1) = issued c ++ new /\
        Forall (fun r => exists url, r = Send "POST" url (JObject [])) new) /\
    (fst r1 = None ->
     issued (snd r1) = issued c ++ level_writes keys skip) /\
    (fst r2 = None ->
     issued (snd r2) = issued (snd r1) ++ level_writes keys skip).
Proof.
  intros W R path skip c keys r1 r2. split; [|split].
  - destruct (InitPath_issued path skip c) as (n & Hn & _).
    exists (take n (level_writes keys skip)). split; [exact Hn|].
    apply Forall_take. unfold level_writes.
    apply Forall_fmap, Forall_true. intros i. now eexists.
  - intros H1.
    destruct (InitPath_issued path skip c) as (n1 & Hn1 & Hall1).
    fold keys r1 in Hn1, Hall1. now rewrite (Hall1 H1) in Hn1.
  - intros H2.
    destruct (InitPath_issued path skip (snd r1)) as (n2 & Hn2 & Hall2).
    fold keys r1 r2 in Hn2, Hall2. now rewrite (Hall2 H2) in Hn2.
Qed.

Lemma InitPath_writes_every_level_witness :
  let c := store.connect sample.apps_only in
  let r1 := InitPath "/apps/http" 1 c in
  let r2 := InitPath "/apps/http" 1 (snd r1) in
  fst r1 = None /\ fst r2 = None /\
  issued (snd r2)
    = [Send "POST" "http://localhost:2019/config/apps/http/" (JObject []);
       Send "POST" "http://localhost:2019/config/apps/http/" (JObject [])].
Proof.
  intros c r1 r2. split; [reflexivity|]. split; [reflexivity|].
  destruct (proj2 (InitPath_writes_every_level Json store.store_remote
                     "/apps/http" 1 c)) as [H1 H2].
  specialize (H1 eq_refl). specialize (H2 eq_refl).
  fold r1 in H1, H2. fold r2 in H2. rewrite H2, H1. reflexivity.
Defined.

(** C1, as stated, fails: against the state left by a first call, in
    which the level exists, a second call with the same arguments probes
    nothing and writes the level again; and where the level is a list,
    the second write appends to it, so the remote state changes too. *)
Lemma InitPath_second_call_writes :
  let c1 := snd (InitPath "/apps/http" 1 (store.connect sample.apps_only)) in
  let r2 := InitPath "/apps/http" 1 (store.connect (remote c1)) in
  let d1 := remote (snd (InitPath "/routes" 0
                           (store.connect (JObject [("routes", JArray [])])))) in
  let d2 := remote (snd (InitPath "/routes" 0 (store.connect d1))) in
  fst (HasPath "/apps/http" (store.connect (remote c1))) = true /\
  fst r2 = None /\
  issued (snd r2)
    = [Send "POST" "http://localhost:2019/config/apps/http/" (JObject [])] /\
  List.filter is_write (issued (snd r2)) <> [] /\
  d1 = JObject [("routes", JArray [JObject []])] /\
  d2 = JObject [("routes", JArray [JObject []; JObject []])].
Proof. vm_compute. repeat split; discriminate. Qed.

End path_initializer_claims.

(** ** PolicyBuilder: PKI trust *)
Section pki_trust.
Import api config expected.

Lemma pki_level_writes :
  level_writes (PathToKeys tls.pkiPath) 1 = take 3 (pki_writes true).
Proof. reflexivity. Qed.

Lemma pki_writes_split (b : bool) :
  pki_writes b
    = level_writes (PathToKeys tls.pkiPath) 1 ++
      [Send "POST" (GetConfigURL tls.pkiPath)
            (types.MarshalPKIConfig (types.mkPKIConfig b))].
Proof. reflexivity. Qed.

(** C9. With a nil flag [SetupPKITrust] returns nil, issues no request
    and leaves the remote state as it was.  With a flag it initialises
    the PKI path from level 1 on (nothing is sent for [apps]) and then
    writes the flag: the requests are those of [pki_writes], all four
    when it returns nil. *)
Theorem SetupPKITrust_opt_in :
  forall (W : Type) (R : Remote W),
    (forall c : Conn W, tls.SetupPKITrust None c = (None, c)) /\
    (forall (b : bool) (c : Conn W),
        exists n : nat,
          issued (snd (tls.SetupPKITrust (Some b) c))
            = issued c ++ take n (pki_writes b) /\
          (fst (tls.SetupPKITrust (Some b) c) = None -> n = 4%nat)).
Proof.
  intros W R. split; [reflexivity|].
  intros b c. unfold tls.SetupPKITrust, check, bind.
  destruct (InitPath_issued tls.pkiPath 1 c) as (n & Hn & Hall).
  destruct (InitPath tls.pkiPath 1 c) as [[e|] c1]; simpl in *.
  - exists (n `min` 3)%nat. split; [|discriminate].
    rewrite Hn, pki_writes_split.
    set (lw := level_writes (PathToKeys tls.pkiPath) 1).
    assert (Hlen : length lw = 3%nat) by reflexivity.
    f_equal. rewrite take_app_le by lia.
    rewrite <- take_take. now rewrite (take_ge lw 3) by lia.
  - exists 4%nat. split; [|reflexivity].
    unfold PutConfig. rewrite sendRequest_issued, Hn, (Hall eq_refl).
    rewrite <- app_assoc. reflexivity.
Qed.

Lemma SetupPKITrust_opt_in_witness :
  let c := store.connect sample.apps_only in
  tls.SetupPKITrust None c = (None, c) /\
  fst (tls.SetupPKITrust (Some true) c) = None /\
  issued (snd (tls.SetupPKITrust (Some true) c)) = pki_writes true.
Proof.
  intros c.
  destruct (SetupPKITrust_opt_in Json store.store_remote) as [Hnil Hset].
  split; [apply Hnil|]. split; [reflexivity|].
  destruct (Hset true c) as (n & Hn & Hall).
  rewrite Hn, (Hall eq_refl). reflexivity.
Defined.

End pki_trust.

(** ** RouteComposer: server set-up *)
Section init_routes.
Import api.

(** C10. When the servers path already exists remotely, [InitRoutes]
    returns nil whatever [serverName] and [skip] are; the only request it
    issues is the read that probes the path, and the remote state is
    left unchanged. *)
Theorem InitRoutes_existing_servers :
  forall (W : Type) (R : Remote W) (serverName : string) (skip : Z)
         (c : Conn W),
    fst (HasPath routes.ServersPath c) = true ->
    routes.InitRoutes serverName skip c
      = (None,
         mkConn (remote c)
                (issued c ++ [Get (GetConfigURL routes.ServersPath)])).
Proof.
  intros W R serverName skip c H.
  unfold routes.InitRoutes, bind in *.
  unfold HasPath, GetConfig, bind, ret in *. simpl in *.
  destruct (decode_map _); [reflexivity | discriminate].
Qed.

Lemma InitRoutes_existing_servers_witness :
  let c := store.connect (sample.with_routes []) in
  fst (HasPath routes.ServersPath c) = true /\
  routes.InitRoutes "other" 0 c
    = (None,
       mkConn (sample.with_routes [])
              [Get "http://localhost:2019/config/apps/http/servers/"]).
Proof.
  intros c. split; [reflexivity|].
  apply (InitRoutes_existing_servers Json store.store_remote "other" 0 c).
  reflexivity.
Defined.

End init_routes.

(** ** The remote tree: members, replacement, identifiers *)
Section store_facts.
Import api store.

Lemma parse_index_segment (n : nat) : parse_index (index_segment n) = Some n.
Proof.
  unfold parse_index, index_segment.
  now rewrite NilEmpty.usu, Unsigned.of_to.
Qed.

Lemma find_id_object (id : string) (o : list (string * Json)) :
  find_id id (JObject o)
    = if has_id id (JObject o) then Some [] else find_members id o.
Proof. reflexivity. Qed.

Lemma find_id_array (id : string) (l : list Json) :
  find_id id (JArray l) = find_items id 0 l.
Proof. reflexivity. Qed.

Lemma field_set_field (key k : string) (x : Json) (o : list (string * Json)) :
  field k (set_field key x o)
    = if String.eqb key k then Some x else field k o.
Proof.
  induction o as [|[k0 y] o IH]; simpl.
  - now destruct (String.eqb key k).
  - destruct (String.eqb_spec k0 key) as [->|Hne]; simpl.
    + now destruct (String.eqb key k).
    + rewrite IH. destruct (String.eqb_spec k0 k) as [->|]; [|done].
      destruct (String.eqb_spec key k); congruence.
Qed.

Lemma field_set_field_eq (key : string) (x : Json) (o : list (string * Json)) :
  field key (set_field key x o) = Some x.
Proof. now rewrite field_set_field, String.eqb_refl. Qed.

Lemma set_field_twice (key : string) (x y : Json) (o : list (string * Json)) :
  set_field key y (set_field key x o) = set_field key y o.
Proof.
  induction o as [|[k0 z] o IH]; simpl.
  - now rewrite String.eqb_refl.
  - destruct (String.eqb k0 key) eqn:E; simpl; rewrite E; [done|].
    now rewrite IH.
Qed.

Lemma set_field_same (key : string) (x : Json) (o : list (string * Json)) :
  field key o = Some x -> set_field key x o = o.
Proof.
  induction o as [|[k0 z] o IH]; simpl; [discriminate|].
  destruct (String.eqb k0 key); [congruence|].
  intros H. now rewrite (IH H).
Qed.

(** Through a name, the node is an object. *)
Lemma child_name (seg : string) (j c : Json) :
  is_name seg = true -> child seg j = Some c ->
  exists o, j = JObject o /\ field seg o = Some c.
Proof.
  unfold is_name. intros Hn Hc. destruct j; try discriminate.
  - simpl in Hc. destruct (parse_index seg); discriminate.
  - now exists fields.
Qed.

Lemma put_at_exists (p : list string) (x : Json) :
  forall doc old : Json,
    names p = true -> get_at p doc = Some old ->
    exists doc', put_at p x doc = Some doc'.
Proof.
  induction p as [|seg p IH]; intros doc old Hn Hg; simpl in *.
  - now eexists.
  - apply andb_prop in Hn as [Hs Hn].
    destruct (child seg doc) as [c|] eqn:Hc; [|discriminate].
    destruct (child_name _ _ _ Hs Hc) as (o & -> & _).
    destruct (IH c old Hn Hg) as (c' & ->). now eexists.
Qed.

Lemma get_put_at (p : list string) (x : Json) :
  forall doc doc' : Json,
    names p = true -> put_at p x doc = Some doc' -> get_at p doc' = Some x.
Proof.
  induction p as [|seg p IH]; intros doc doc' Hn Hp; simpl in *.
  - congruence.
  - apply andb_prop in Hn as [Hs Hn].
    destruct (child seg doc) as [c|] eqn:Hc; [|discriminate].
    destruct (child_name _ _ _ Hs Hc) as (o & -> & _).
    destruct (put_at p x c) as [c'|] eqn:Hc'; [|discriminate].
    simpl in Hp. injection Hp as <-. simpl.
    rewrite field_set_field_eq. eauto.
Qed.

Lemma put_at_twice (p : list string) (x y : Json) :
  forall doc doc' : Json,
    names p = true -> put_at p x doc = Some doc' ->
    put_at p y doc' = put_at p y doc.
Proof.
  induction p as [|seg p IH]; intros doc doc' Hn Hp; simpl in *.
  - reflexivity.
  - apply andb_prop in Hn as [Hs Hn].
    destruct (child seg doc) as [c|] eqn:Hc; [|discriminate].
    destruct (child_name _ _ _ Hs Hc) as (o & -> & Hf).
    destruct (put_at p x c) as [c'|] eqn:Hc'; [|discriminate].
    simpl in Hp. injection Hp as <-. simpl.
    rewrite field_set_field_eq, (IH c c' Hn Hc').
    destruct (put_at p y c); [|done]. simpl.
    now rewrite set_field_twice.
Qed.

Lemma put_at_same (p : list string) (x : Json) :
  forall doc : Json,
    names p = true -> get_at p doc = Some x -> put_at p x doc = Some doc.
Proof.
  induction p as [|seg p IH]; intros doc Hn Hg; simpl in *.
  - congruence.
  - apply andb_prop in Hn as [Hs Hn].
    destruct (child seg doc) as [c|] eqn:Hc; [|discriminate].
    destruct (child_name _ _ _ Hs Hc) as (o & -> & Hf).
    rewrite (IH c Hn Hg). simpl. now rewrite (set_field_same _ _ _ Hf).
Qed.

Lemma post_at_cons (seg s2 : string) (rest : list string) (v : Json)
    (e : bool) (j : Json) :
  post_at (seg :: s2 :: rest) v e j
    = match child seg j with
      | Some c => match post_at (s2 :: rest) v e c with
                  | Some c' => set_child seg c' j
                  | None => None
                  end
      | None => None
      end.
Proof. reflexivity. Qed.

Lemma delete_at_cons (seg s2 : string) (rest : list string) (j : Json) :
  delete_at (seg :: s2 :: rest) j
    = match child seg j with
      | Some c => match delete_at (s2 :: rest) c with
                  | Some c' => set_child seg c' j
                  | None => None
                  end
      | None => None
      end.
Proof. reflexivity. Qed.

(** A POST at a list appends the body. *)
Lemma post_at_append (p : list string) (v : Json) (rs : list Json) :
  forall doc : Json,
    names p = true -> p <> [] -> get_at p doc = Some (JArray rs) ->
    post_at p v false doc = put_at p (JArray (rs ++ [v])) doc.
Proof.
  induction p as [|seg p IH]; intros doc Hn Hne Hg; [congruence|].
  simpl in Hn. apply andb_prop in Hn as [Hs Hn]. simpl in Hg.
  destruct (child seg doc) as [c|] eqn:Hc; [|discriminate].
  destruct (child_name _ _ _ Hs Hc) as (o & -> & Hf).
  destruct p as [|s2 p].
  - simpl in *. injection Hg as ->. now rewrite Hf.
  - rewrite post_at_cons, Hc, (IH c Hn ltac:(discriminate) Hg).
    simpl put_at at 2. now rewrite Hf.
Qed.

End store_facts.

Section identifier_facts.
Import api store.

Lemma find_members_None (id k : string) (v : Json)
    (o : list (string * Json)) :
  find_members id o = None -> field k o = Some v -> find_id id v = None.
Proof.
  induction o as [|[k0 x] o IH]; simpl; [discriminate|].
  destruct (find_id id x) eqn:E; [discriminate|].
  destruct (String.eqb k0 k); [congruence | exact IH].
Qed.

Lemma find_items_None (id : string) (l : list Json) :
  forall (n i : nat) (v : Json),
    find_items id n l = None -> l !! i = Some v -> find_id id v = None.
Proof.
  induction l as [|x l IH]; intros n i v; simpl; [discriminate|].
  destruct (find_id id x) eqn:E; [discriminate|].
  destruct i as [|i]; simpl; [congruence | apply IH].
Qed.

Lemma find_id_None_has_id (id : string) (j : Json) :
  find_id id j = None -> has_id id j = false.
Proof.
  destruct j; try reflexivity.
  rewrite find_id_object. now destruct (has_id id (JObject fields)).
Qed.

Lemma has_id_find_id (id : string) (j : Json) :
  has_id id j = true -> find_id id j = Some [].
Proof.
  destruct j; try discriminate.
  rewrite find_id_object. now intros ->.
Qed.

Lemma find_id_None_child (id seg : string) (j c : Json) :
  find_id id j = None -> child seg j = Some c -> find_id id c = None.
Proof.
  destruct j; try discriminate; simpl child.
  - rewrite find_id_array. destruct (parse_index seg); [|discriminate].
    apply find_items_None.
  - rewrite find_id_object.
    destruct (has_id id (JObject fields)); [discriminate|].
    apply find_members_None.
Qed.

Lemma find_id_None_get_at (id : string) (p : list string) :
  forall doc sub : Json,
    find_id id doc = None -> get_at p doc = Some sub -> find_id id sub = None.
Proof.
  induction p as [|seg p IH]; intros doc sub Hf Hg; simpl in Hg.
  - congruence.
  - destruct (child seg doc) as [c|] eqn:Hc; [|discriminate].
    eapply IH; [|exact Hg]. eapply find_id_None_child; eauto.
Qed.

(** No element of a list free of the identifier carries it. *)
Lemma find_items_None_filter (id : string) (l : list Json) :
  forall n : nat,
    find_items id n l = None -> List.filter (has_id id) l = [].
Proof.
  induction l as [|x l IH]; intros n; simpl; [done|].
  destruct (find_id id x) eqn:E; [discriminate|].
  rewrite (find_id_None_has_id _ _ E). apply IH.
Qed.

Lemma find_items_middle (id : string) (v : Json) (q : list string)
    (l1 l2 : list Json) :
  forall n : nat,
    find_items id n l1 = None -> find_id id v = Some q ->
    find_items id n (l1 ++ v :: l2)
      = Some (index_segment (n + length l1) :: q).
Proof.
  induction l1 as [|x l1 IH]; intros n; simpl.
  - intros _ ->. now rewrite Nat.add_0_r.
  - destruct (find_id id x); [discriminate|].
    intros Hl Hv. rewrite (IH (S n) Hl Hv). do 3 f_equal. lia.
Qed.

Lemma find_items_app_None (id : string) (l1 l2 : list Json) :
  forall n : nat,
    find_items id n (l1 ++ l2) = None -> find_items id n l1 = None.
Proof.
  induction l1 as [|x l1 IH]; intros n; simpl; [done|].
  destruct (find_id id x); [done | apply IH].
Qed.

Lemma find_members_set_field (id seg : string) (c c' : Json)
    (q : list string) (o : list (string * Json)) :
  find_members id o = None -> field seg o = Some c ->
  find_id id c' = Some q ->
  find_members id (set_field seg c' o) = Some (seg :: q).
Proof.
  intros Hm Hf Hq. induction o as [|[k0 x] o IH]; simpl in *; [discriminate|].
  destruct (find_id id x) eqn:E; [discriminate|].
  destruct (String.eqb_spec k0 seg) as [->|Hne]; simpl.
  - now rewrite Hq.
  - rewrite E. now apply IH.
Qed.

Lemma has_id_set_field (id seg : string) (c' : Json)
    (o : list (string * Json)) :
  has_id id (JObject o) = false -> (forall s, c' <> JString s) ->
  has_id id (JObject (set_field seg c' o)) = false.
Proof.
  unfold has_id. rewrite field_set_field.
  destruct (String.eqb seg "@id"); [|done].
  intros _ Hc. destruct c'; try reflexivity. now destruct (Hc s).
Qed.

(** After an element that carries the identifier is inserted into a list
    of a document free of it, the identifier resolves to that element. *)
Lemma find_id_put_at (id : string) (v : Json) (old l1 l2 : list Json)
    (p : list string) :
  old = l1 ++ l2 ->
  forall doc doc' : Json,
    names p = true -> find_id id doc = None ->
    get_at p doc = Some (JArray old) -> has_id id v = true ->
    put_at p (JArray (l1 ++ v :: l2)) doc = Some doc' ->
    find_id id doc' = Some (p ++ [index_segment (length l1)]).
Proof.
  intros ->.
  induction p as [|seg p IH]; intros doc doc' Hn Hf Hg Hv Hp; simpl in *.
  - injection Hg as ->. injection Hp as <-.
    rewrite find_id_array in *. apply find_items_app_None in Hf.
    now rewrite (find_items_middle id v [] l1 l2 0 Hf (has_id_find_id _ _ Hv)).
  - apply andb_prop in Hn as [Hs Hn].
    destruct (child seg doc) as [c|] eqn:Hc; [|discriminate].
    destruct (child_name _ _ _ Hs Hc) as (o & -> & Hfo).
    destruct (put_at p (JArray (l1 ++ v :: l2)) c) as [c'|] eqn:Hc';
      [|discriminate].
    simpl in Hp. injection Hp as <-.
    pose proof (find_id_None_child _ _ _ _ Hf Hc) as Hfc.
    pose proof (IH c c' Hn Hfc Hg Hv Hc') as Hq.
    rewrite find_id_object in Hf |- *.
    destruct (has_id id (JObject o)) eqn:Hid; [discriminate|].
    rewrite has_id_set_field; [| exact Hid |].
    + now apply (find_members_set_field id seg c c').
    + intros s ->. discriminate.
Qed.

(** Deleting the inserted element gives the document back. *)
Lemma delete_at_inserted (v : Json) (old l1 l2 : list Json)
    (p : list string) :
  old = l1 ++ l2 ->
  forall doc doc' : Json,
    names p = true -> get_at p doc = Some (JArray old) ->
    put_at p (JArray (l1 ++ v :: l2)) doc = Some doc' ->
    delete_at (p ++ [index_segment (length l1)]) doc' = Some doc.
Proof.
  intros ->.
  induction p as [|seg p IH]; intros doc doc' Hn Hg Hp; simpl in Hg, Hp.
  - injection Hg as ->. injection Hp as <-. simpl.
    rewrite parse_index_segment, length_app. simpl.
    destruct (Nat.ltb_spec (length l1) (length l1 + S (length l2))); [|lia].
    now rewrite delete_middle.
  - simpl in Hn. apply andb_prop in Hn as [Hs Hn].
    destruct (child seg doc) as [c|] eqn:Hc; [|discriminate].
    destruct (child_name _ _ _ Hs Hc) as (o & -> & Hfo).
    destruct (put_at p (JArray (l1 ++ v :: l2)) c) as [c'|] eqn:Hc';
      [|discriminate].
    simpl in Hp. injection Hp as <-.
    pose proof (IH c c' Hn Hg Hc') as Hd.
    simpl app. destruct (p ++ [index_segment (length l1)]) as [|s2 rest] eqn:E.
    { now destruct p. }
    rewrite delete_at_cons. simpl child. rewrite field_set_field_eq, Hd.
    simpl. now rewrite set_field_twice, (set_field_same _ _ _ Hfo).
Qed.

(** A POST addressed inside the inserted element changes that element
    only. *)
Lemma post_at_inside (body v v' : Json) (e : bool) (r : list string)
    (old l1 l2 : list Json) (p : list string) :
  r <> [] -> post_at r body e v = Some v' ->
  forall doc doc' : Json,
    names p = true -> get_at p doc = Some (JArray old) ->
    put_at p (JArray (l1 ++ v :: l2)) doc = Some doc' ->
    post_at (p ++ index_segment (length l1) :: r) body e doc'
      = put_at p (JArray (l1 ++ v' :: l2)) doc.
Proof.
  intros Hr Hv. destruct r as [|r1 r]; [congruence|].
  induction p as [|seg p IH]; intros doc doc' Hn Hg Hp; simpl in Hg, Hp.
  - injection Hp as <-. simpl app.
    rewrite post_at_cons. simpl child. rewrite parse_index_segment.
    rewrite (list_lookup_middle l1 l2 v (length l1) eq_refl), Hv.
    simpl. rewrite parse_index_segment, length_app. simpl.
    destruct (Nat.ltb_spec (length l1) (length l1 + S (length l2))); [|lia].
    rewrite insert_app_r_alt by lia. rewrite Nat.sub_diag. reflexivity.
  - simpl in Hn. apply andb_prop in Hn as [Hs Hn].
    destruct (child seg doc) as [c|] eqn:Hc; [|discriminate].
    destruct (child_name _ _ _ Hs Hc) as (o & -> & Hfo).
    destruct (put_at p (JArray (l1 ++ v :: l2)) c) as [c'|] eqn:Hc';
      [|discriminate].
    simpl in Hp. injection Hp as <-.
    pose proof (IH c c' Hn Hg Hc') as Hd.
    simpl app.
    destruct (p ++ index_segment (length l1) :: r1 :: r) as [|s2 rest] eqn:E.
    { now destruct p. }
    rewrite post_at_cons. simpl child. rewrite field_set_field_eq, Hd.
    simpl put_at. rewrite Hfo.
    destruct (put_at p (JArray (l1 ++ v' :: l2)) c); [|done].
    simpl. now rewrite set_field_twice.
Qed.

End identifier_facts.

(** ** Requests of the route composer against the remote tree *)
Section store_requests.
Import api store strings.

Lemma separator_free_trimRight (k : string) :
  separator_free k = true -> trimRightByte (k +:+ "/") slash = k.
Proof.
  induction k as [|a k IH]; [reflexivity|]. simpl.
  intros [Ha Hk]%andb_prop. apply negb_true_iff in Ha.
  rewrite (IH Hk), Ha. now destruct k.
Qed.

Lemma separator_free_HasSuffix (k : string) :
  separator_free k = true -> HasSuffix k slash = false.
Proof.
  induction k as [|a k IH]; [reflexivity|]. simpl.
  intros [Ha Hk]%andb_prop. apply negb_true_iff in Ha.
  destruct k; [exact Ha | exact (IH Hk)].
Qed.

Lemma valid_key_inv (k : string) :
  valid_key k = true ->
  separator_free k = true /\ String.eqb k "" = false /\
  HasPrefix k slash = false.
Proof.
  unfold valid_key. intros [Hne Hk]%andb_prop.
  apply negb_true_iff in Hne. repeat split; [done..|].
  destruct k as [|a k]; [reflexivity|]. simpl in *.
  apply andb_prop in Hk as [Ha _]. now apply negb_true_iff in Ha.
Qed.

Lemma strip_prefix_app (p s : string) : strip_prefix p (p +:+ s) = Some s.
Proof.
  induction p as [|a p IH]; simpl; [now destruct s|].
  now rewrite Ascii.eqb_refl.
Qed.

Lemma GetIDURL_valid_key (id : string) :
  valid_key id = true ->
  GetIDURL id = BaseURL +:+ "/id/" +:+ id +:+ "/".
Proof.
  intros (Hk & Hne & Hp)%valid_key_inv. unfold GetIDURL.
  rewrite Hp.
  change (HasSuffix ("/" +:+ id) slash) with (HasSuffix (String slash id) slash).
  destruct id as [|a id]; [discriminate|].
  change (HasSuffix (String slash (String a id)) slash)
    with (HasSuffix (String a id) slash).
  now rewrite (separator_free_HasSuffix _ Hk).
Qed.

Lemma parse_url_id (id : string) :
  valid_key id = true -> parse_url (GetIDURL id) = Some (ById id []).
Proof.
  intros Hv. rewrite (GetIDURL_valid_key _ Hv).
  destruct (valid_key_inv _ Hv) as (Hk & Hne & Hp).
  unfold parse_url. rewrite strip_prefix_app.
  change (strip_prefix "/config/" ("/id/" +:+ id +:+ "/")) with (@None string).
  rewrite strip_prefix_app.
  unfold segments, Trim.
  rewrite (separator_free_trimRight _ Hk), (trimLeftByte_id _ _ Hp), Hne.
  now rewrite (Split_separator_free _ Hk).
Qed.

Lemma parse_url_routes :
  parse_url (GetConfigURL routes.RoutesPath) = Some (ByPath routes_keys).
Proof. reflexivity. Qed.

Lemma serve_get_absent (id : string) (doc : Json) :
  valid_key id = true -> find_id id doc = None ->
  serve_get (GetIDURL id) doc = not_found.
Proof.
  intros Hv Hf. unfold serve_get. rewrite (parse_url_id _ Hv). simpl.
  now rewrite Hf.
Qed.

Lemma serve_get_present (id : string) (doc v : Json) (p : list string) :
  valid_key id = true -> find_id id doc = Some p ->
  get_at p doc = Some v ->
  serve_get (GetIDURL id) doc = Reply 200 (Some v).
Proof.
  intros Hv Hf Hg. unfold serve_get. rewrite (parse_url_id _ Hv). simpl.
  now rewrite Hf, app_nil_r, Hg.
Qed.

Lemma serve_delete_present (id : string) (doc doc' : Json)
    (p : list string) :
  valid_key id = true -> find_id id doc = Some p ->
  delete_at p doc = Some doc' ->
  serve_delete (GetIDURL id) doc = (ok, doc').
Proof.
  intros Hv Hf Hd. unfold serve_delete. rewrite (parse_url_id _ Hv). simpl.
  now rewrite Hf, app_nil_r, Hd.
Qed.

Lemma serve_send_routes (body doc doc' : Json) (rs : list Json) :
  get_at routes_keys doc = Some (JArray rs) ->
  put_at routes_keys (JArray (rs ++ [body])) doc = Some doc' ->
  serve_send "POST" (GetConfigURL routes.RoutesPath) body doc = (ok, doc').
Proof.
  intros Hg Hp. unfold serve_send. rewrite parse_url_routes.
  change (negb (String.eqb "POST" "POST")) with false.
  cbv beta iota. unfold resolve.
  change (split_ellipsis routes_keys) with (routes_keys, false).
  cbv beta iota.
  rewrite (post_at_append routes_keys body rs doc eq_refl
             ltac:(discriminate) Hg), Hp.
  reflexivity.
Qed.

(** [AddRoute] against a document that holds the route list. *)
Lemma AddRoute_store (r : types.Route) (doc : Json) (rs : list Json)
    (sent : list Request) :
  get_at routes_keys doc = Some (JArray rs) ->
  exists doc',
    put_at routes_keys (JArray (rs ++ [types.MarshalRoute r])) doc
      = Some doc' /\
    routes.AddRoute r (mkConn doc sent)
      = (None,
         mkConn doc'
           (sent ++ [Send "POST" (GetConfigURL routes.RoutesPath)
                          (types.MarshalRoute r)])).
Proof.
  intros Hg.
  destruct (put_at_exists routes_keys (JArray (rs ++ [types.MarshalRoute r]))
              doc _ eq_refl Hg) as (doc' & Hp).
  exists doc'. split; [exact Hp|].
  unfold routes.AddRoute, PutConfig, sendRequest.
  change (ToUpper "POST") with "POST". cbv zeta.
  change (remote (mkConn doc sent)) with doc.
  change (do_send "POST" (GetConfigURL routes.RoutesPath)
            (types.MarshalRoute r) doc)
    with (serve_send "POST" (GetConfigURL routes.RoutesPath)
            (types.MarshalRoute r) doc).
  now rewrite (serve_send_routes _ _ _ _ Hg Hp).
Qed.

Lemma has_id_MarshalRoute (r : types.Route) :
  String.eqb (types.ID r) "" = false ->
  has_id (types.ID r) (types.MarshalRoute r) = true.
Proof.
  intros H. destruct r as [id m h t]. simpl in *.
  unfold types.omitempty_string. rewrite H. simpl.
  apply String.eqb_refl.
Qed.

End store_requests.

(** ** RouteComposer: upsert by identifier *)
Section upsert.
Import api store expected.

Lemma get_at_app (p q : list string) :
  forall doc : Json,
    get_at (p ++ q) doc
      = match get_at p doc with Some c => get_at q c | None => None end.
Proof.
  induction p as [|seg p IH]; intros doc; simpl; [done|].
  destruct (child seg doc); [apply IH | done].
Qed.

Lemma get_at_inserted (p : list string) (v : Json) (l1 l2 : list Json)
    (doc doc' : Json) :
  names p = true -> put_at p (JArray (l1 ++ v :: l2)) doc = Some doc' ->
  get_at (p ++ [index_segment (length l1)]) doc' = Some v.
Proof.
  intros Hn Hp. rewrite get_at_app, (get_put_at p _ doc doc' Hn Hp). simpl.
  rewrite parse_index_segment.
  now rewrite (list_lookup_middle l1 l2 v (length l1) eq_refl).
Qed.

Lemma AddReverseProxy_absent (id toURL : string) (doc : Json)
    (sent : list Request) :
  valid_key id = true -> find_id id doc = None ->
  routes.AddReverseProxy id toURL (mkConn doc sent)
    = routes.AddRoute (routes.reverseProxyRoute id toURL)
        (mkConn doc (sent ++ [Get (GetIDURL id)])).
Proof.
  intros Hv Hf.
  unfold routes.AddReverseProxy, HasID, GetByID, bind, ret. simpl.
  now rewrite (serve_get_absent _ _ Hv Hf).
Qed.

Lemma AddReverseProxy_present (id toURL : string) (doc doc' : Json)
    (o : list (string * Json)) (p : list string) (sent : list Request) :
  valid_key id = true -> find_id id doc = Some p ->
  get_at p doc = Some (JObject o) -> delete_at p doc = Some doc' ->
  routes.AddReverseProxy id toURL (mkConn doc sent)
    = routes.AddRoute (routes.reverseProxyRoute id toURL)
        (mkConn doc' ((sent ++ [Get (GetIDURL id)]) ++ [Delete (GetIDURL id)])).
Proof.
  intros Hv Hf Hg Hd.
  unfold routes.AddReverseProxy, HasID, GetByID, DeleteByID, bind, ret.
  simpl. rewrite (serve_get_present _ _ _ _ Hv Hf Hg). simpl.
  now rewrite (serve_delete_present _ _ _ _ Hv Hf Hd).
Qed.

Lemma MarshalRoute_object (r : types.Route) :
  exists o, types.MarshalRoute r = JObject o.
Proof. destruct r. now eexists. Qed.

Lemma has_id_object (id : string) (v : Json) :
  has_id id v = true -> exists o, v = JObject o.
Proof. destruct v; try discriminate. now eexists. Qed.

Lemma HasID_conn {W : Type} {R : Remote W} (id : string) (c : Conn W) :
  snd (HasID id c) = mkConn (remote c) (issued c ++ [Get (GetIDURL id)]).
Proof. reflexivity. Qed.

Lemma DeleteByID_issued {W : Type} {R : Remote W} (id : string) (c : Conn W) :
  issued (snd (api.DeleteByID id c)) = issued c ++ [Delete (GetIDURL id)].
Proof.
  unfold api.DeleteByID. now destruct (do_delete (GetIDURL id) (remote c)).
Qed.

(** One upsert against the remote tree.  [doc0] is free of the identifier
    and holds the routes [l1 ++ l2]; [doc] is [doc0] with the routes
    [olds], at most one and carrying the identifier, placed between
    them. *)
Lemma AddReverseProxy_upsert (doc0 doc : Json) (l1 l2 olds : list Json)
    (X u : string) (sent : list Request) :
  valid_key X = true ->
  get_at routes_keys doc0 = Some (JArray (l1 ++ l2)) ->
  find_id X doc0 = None ->
  (length olds <= 1)%nat -> forallb (has_id X) olds = true ->
  put_at routes_keys (JArray (l1 ++ olds ++ l2)) doc0 = Some doc ->
  exists doc',
    put_at routes_keys
      (JArray ((l1 ++ l2) ++
               [types.MarshalRoute (routes.reverseProxyRoute X u)])) doc0
      = Some doc' /\
    routes.AddReverseProxy X u (mkConn doc sent)
      = (None,
         mkConn doc'
           (sent ++ upsert_requests X (negb (bool_decide (olds = [])))
                      (types.MarshalRoute (routes.reverseProxyRoute X u)))).
Proof.
  intros Hv Hg Hf Hlen Hid Hp.
  destruct olds as [|old [|? ?]]; [| |simpl in Hlen; lia].
  - change (l1 ++ [] ++ l2) with (l1 ++ l2) in Hp.
    rewrite (put_at_same routes_keys _ doc0 eq_refl Hg) in Hp.
    injection Hp as <-.
    destruct (AddRoute_store (routes.reverseProxyRoute X u) doc0 (l1 ++ l2)
                (sent ++ [Get (GetIDURL X)]) Hg) as (doc' & Hp' & Ha).
    exists doc'. split; [exact Hp'|].
    rewrite (AddReverseProxy_absent _ _ _ _ Hv Hf), Ha.
    now rewrite <- app_assoc.
  - change (l1 ++ [old] ++ l2) with (l1 ++ old :: l2) in Hp.
    simpl in Hid. apply andb_prop in Hid as [Hold _].
    destruct (has_id_object _ _ Hold) as (o & ->).
    pose proof (find_id_put_at X (JObject o) _ l1 l2 routes_keys eq_refl
                  doc0 doc eq_refl Hf Hg Hold Hp) as Hf1.
    pose proof (get_at_inserted routes_keys (JObject o) l1 l2 doc0 doc
                  eq_refl Hp) as Hg1.
    pose proof (delete_at_inserted (JObject o) _ l1 l2 routes_keys eq_refl
                  doc0 doc eq_refl Hg Hp) as Hd1.
    destruct (AddRoute_store (routes.reverseProxyRoute X u) doc0 (l1 ++ l2)
                ((sent ++ [Get (GetIDURL X)]) ++ [Delete (GetIDURL X)]) Hg)
      as (doc' & Hp' & Ha).
    exists doc'. split; [exact Hp'|].
    rewrite (AddReverseProxy_present _ _ _ _ _ _ _ Hv Hf1 Hg1 Hd1), Ha.
    now rewrite <- !app_assoc.
Qed.

(** C5. [AddReverseProxy] deletes the route that carries the identifier
    before it appends the new one.  For any remote: when the identifier
    exists, a delete by identifier follows the probing read, and the
    append is issued only after it.  Against the remote tree, starting
    from a route list in which at most one route carries [X]: adding a
    route with identifier [X] and then a different one with the same
    identifier leaves exactly one route with identifier [X] in the list,
    the second one. *)
Theorem AddReverseProxy_last_write_wins :
  (forall (W : Type) (R : Remote W) (X u : string) (c : Conn W),
      fst (HasID X c) = true ->
      exists n : nat,
        (2 <= n)%nat /\
        issued (snd (routes.AddReverseProxy X u c))
          = issued c ++
            take n (upsert_requests X true
                      (types.MarshalRoute (routes.reverseProxyRoute X u))) /\
        (fst (routes.AddReverseProxy X u c) = None -> n = 3%nat)) /\
  (forall (doc0 doc : Json) (l1 l2 olds : list Json) (X u1 u2 : string),
      valid_key X = true ->
      get_at routes_keys doc0 = Some (JArray (l1 ++ l2)) ->
      find_id X doc0 = None ->
      (length olds <= 1)%nat -> forallb (has_id X) olds = true ->
      put_at routes_keys (JArray (l1 ++ olds ++ l2)) doc0 = Some doc ->
      let new1 := types.MarshalRoute (routes.reverseProxyRoute X u1) in
      let new2 := types.MarshalRoute (routes.reverseProxyRoute X u2) in
      let r1 := routes.AddReverseProxy X u1 (connect doc) in
      let r2 := routes.AddReverseProxy X u2 (snd r1) in
      fst r1 = None /\ fst r2 = None /\
      get_at routes_keys (remote (snd r1))
        = Some (JArray ((l1 ++ l2) ++ [new1])) /\
      get_at routes_keys (remote (snd r2))
        = Some (JArray ((l1 ++ l2) ++ [new2])) /\
      List.filter (has_id X) ((l1 ++ l2) ++ [new2]) = [new2] /\
      issued (snd r2)
        = upsert_requests X (negb (bool_decide (olds = []))) new1 ++
          upsert_requests X true new2).
Proof.
  split.
  - intros W R X u c H.
    unfold routes.AddReverseProxy, bind.
    pose proof (HasID_conn X c) as Hc.
    destruct (HasID X c) as [b c1]. simpl in H, Hc. subst b c1.
    pose proof (DeleteByID_issued X
                  (mkConn (remote c) (issued c ++ [Get (GetIDURL X)]))) as Hd.
    destruct (api.DeleteByID X _) as [[e|] c2]; simpl in Hd |- *.
    + exists 2%nat. split; [lia|]. split; [|discriminate].
      now rewrite Hd, <- app_assoc.
    + exists 3%nat. split; [lia|]. split; [|reflexivity].
      unfold routes.AddRoute, PutConfig.
      now rewrite sendRequest_issued, Hd, <- !app_assoc.
  - intros doc0 doc l1 l2 olds X u1 u2 Hv Hg Hf Hlen Hid Hp new1 new2 r1 r2.
    destruct (valid_key_inv _ Hv) as (_ & Hne & _).
    assert (Hnew : forall u,
               has_id X (types.MarshalRoute (routes.reverseProxyRoute X u)) = true)
      by (intros u; now apply (has_id_MarshalRoute (routes.reverseProxyRoute X u))).
    destruct (AddReverseProxy_upsert doc0 doc l1 l2 olds X u1 [] Hv Hg Hf Hlen
                Hid Hp) as (doc1 & Hp1 & Ha1).
    fold new1 in Hp1, Ha1.
    assert (Hg' : get_at routes_keys doc0 = Some (JArray ((l1 ++ l2) ++ [])))
      by now rewrite app_nil_r.
    assert (Hid1 : forallb (has_id X) [new1] = true)
      by (cbn [forallb]; unfold new1; now rewrite Hnew).
    destruct (AddReverseProxy_upsert doc0 doc1 (l1 ++ l2) [] [new1] X u2
                ([] ++ upsert_requests X (negb (bool_decide (olds = []))) new1)
                Hv Hg' Hf (le_n 1) Hid1 Hp1) as (doc2 & Hp2 & Ha2).
    fold new2 in Hp2, Ha2. rewrite app_nil_r in Hp2.
    unfold r2, r1, connect. rewrite Ha1. cbn [fst snd remote issued].
    rewrite Ha2. cbn [fst snd remote issued].
    repeat split.
    + exact (get_put_at routes_keys _ doc0 doc1 eq_refl Hp1).
    + exact (get_put_at routes_keys _ doc0 doc2 eq_refl Hp2).
    + pose proof (find_id_None_get_at X routes_keys doc0 _ Hf Hg) as Hrs.
      rewrite find_id_array in Hrs.
      rewrite List.filter_app, (find_items_None_filter _ _ _ Hrs).
      cbn [List.filter app]. unfold new2. now rewrite (Hnew u2).
Qed.

Lemma AddReverseProxy_last_write_wins_witness :
  let old := types.MarshalRoute
               (routes.reverseProxyRoute "a.com" "localhost:2000") in
  let doc := sample.with_routes [old] in
  let r1 := routes.AddReverseProxy "a.com" "localhost:3000" (connect doc) in
  let r2 := routes.AddReverseProxy "a.com" "localhost:4000" (snd r1) in
  fst (HasID "a.com" (connect doc)) = true /\
  valid_key "a.com" = true /\
  get_at routes_keys (sample.with_routes []) = Some (JArray []) /\
  find_id "a.com" (sample.with_routes []) = None /\
  forallb (has_id "a.com") [old] = true /\
  put_at routes_keys (JArray [old]) (sample.with_routes []) = Some doc /\
  (exists n : nat,
      issued (snd r1)
        = take n (upsert_requests "a.com" true
                    (types.MarshalRoute
                       (routes.reverseProxyRoute "a.com" "localhost:3000")))) /\
  get_at routes_keys (remote (snd r2))
    = Some (JArray [types.MarshalRoute
                      (routes.reverseProxyRoute "a.com" "localhost:4000")]).
Proof.
  intros old doc r1 r2.
  do 6 (split; [reflexivity|]). split.
  - destruct (proj1 AddReverseProxy_last_write_wins Json store_remote
                "a.com" "localhost:3000" (connect doc) eq_refl)
      as (n & _ & Hn & _).
    exists n. exact Hn.
  - exact (proj1 (proj2 (proj2 (proj2
             (proj2 AddReverseProxy_last_write_wins
                (sample.with_routes []) doc [] [] [old] "a.com"
                "localhost:3000" "localhost:4000"
                eq_refl eq_refl eq_refl (le_n 1) eq_refl eq_refl))))).
Defined.

End upsert.

(** ** RouteComposer: wildcard sub-trees *)
Section wildcard.
Import api store scenario.

Lemma parse_url_subroutes :
  parse_url (GetIDURL (wildcard_id +:+ "/handle/0/routes/..."))
    = Some (ById wildcard_id ["handle"; "0"; "routes"; "..."]).
Proof. reflexivity. Qed.

Lemma split_ellipsis_subroutes (p : list string) :
  split_ellipsis (p ++ ["handle"; "0"; "routes"; "..."])
    = (p ++ ["handle"; "0"; "routes"], true).
Proof.
  unfold split_ellipsis.
  rewrite last_app, removelast_app by discriminate. reflexivity.
Qed.

Lemma post_subroutes :
  post_at ["handle"; "0"; "routes"]
    (JArray [types.MarshalRoute scenario.api_route]) true
    (types.MarshalRoute (routes.wildcardRoute "example.com"))
  = Some (types.MarshalRoute scenario.composed).
Proof. reflexivity. Qed.

(** C6. In a remote tree that holds the route list and no object with
    identifier [wildcard-example.com], [AddWildcardRoute "example.com"]
    followed by [AddSubReverseProxy "example.com" "api"
    ["8080"; "8081"] "127.0.0.1"] both return nil and leave, at the end
    of the route list and under the identifier [wildcard-example.com],
    the terminal route with host match [*.example.com] whose sub-route
    list holds exactly the route [api.example.com] with host match
    [api.example.com] and the upstreams [127.0.0.1:8080] and
    [127.0.0.1:8081] in that order. *)
Theorem wildcard_composition :
  forall (doc : Json) (rs : list Json),
    get_at routes_keys doc = Some (JArray rs) ->
    find_id wildcard_id doc = None ->
    let r1 := routes.AddWildcardRoute "example.com" (connect doc) in
    let r2 := routes.AddSubReverseProxy "example.com" "api"
                ["8080"; "8081"] "127.0.0.1" (snd r1) in
    fst r1 = None /\ fst r2 = None /\
    get_at routes_keys (remote (snd r2))
      = Some (JArray (rs ++ [types.MarshalRoute scenario.composed])) /\
    serve_get (GetIDURL wildcard_id) (remote (snd r2))
      = Reply 200 (Some (types.MarshalRoute scenario.composed)) /\
    routes.subRoute "example.com" "api" ["8080"; "8081"] "127.0.0.1"
      = scenario.api_route.
Proof.
  intros doc rs Hg Hf r1 r2.
  set (wild := types.MarshalRoute (routes.wildcardRoute "example.com")).
  set (full := types.MarshalRoute scenario.composed).
  destruct (AddRoute_store (routes.wildcardRoute "example.com") doc rs [] Hg)
    as (doc1 & Hp1 & Ha1). fold wild in Hp1, Ha1.
  assert (Hr1 : r1 = (None, mkConn doc1
            ([] ++ [Send "POST" (GetConfigURL routes.RoutesPath) wild])))
    by exact Ha1.
  pose proof (find_id_put_at wildcard_id wild rs rs [] routes_keys
                (eq_sym (app_nil_r rs)) doc doc1 eq_refl Hf Hg eq_refl Hp1)
    as Hf1.
  destruct (put_at_exists routes_keys (JArray (rs ++ [full])) doc _
              eq_refl Hg) as (doc2 & Hp2).
  assert (Hs : serve_send "POST"
                 (GetIDURL (wildcard_id +:+ "/handle/0/routes/..."))
                 (JArray [types.MarshalRoute scenario.api_route]) doc1
               = (ok, doc2)).
  { unfold serve_send. rewrite parse_url_subroutes.
    change (negb (String.eqb "POST" "POST")) with false. cbv beta iota.
    unfold resolve. rewrite Hf1, split_ellipsis_subroutes.
    rewrite <- app_assoc. cbn [app].
    rewrite (post_at_inside _ wild full true ["handle"; "0"; "routes"] rs
               rs [] routes_keys ltac:(discriminate) post_subroutes doc doc1
               eq_refl Hg Hp1), Hp2.
    reflexivity. }
  assert (Hr2 : exists sent, r2 = (None, mkConn doc2 sent)).
  { unfold r2. rewrite Hr1. eexists.
    unfold routes.AddSubReverseProxy, PutByID, sendRequest.
    cbn [snd remote issued].
    change (strings.ToUpper "POST") with "POST". cbv zeta.
    change (do_send "POST" ?u ?b doc1) with (serve_send "POST" u b doc1).
    change ("wildcard-" +:+ "example.com") with wildcard_id.
    change (types.MarshalRoute
              (routes.subRoute "example.com" "api" ["8080"; "8081"]
                 "127.0.0.1"))
      with (types.MarshalRoute scenario.api_route).
    rewrite Hs. reflexivity. }
  destruct Hr2 as (sent & Hr2). rewrite Hr1, Hr2. cbn [fst snd remote].
  repeat split.
  - exact (get_put_at routes_keys _ doc doc2 eq_refl Hp2).
  - pose proof (find_id_put_at wildcard_id full rs rs [] routes_keys
                  (eq_sym (app_nil_r rs)) doc doc2 eq_refl Hf Hg eq_refl Hp2)
      as Hf2.
    apply (serve_get_present wildcard_id doc2 full _ eq_refl Hf2).
    exact (get_at_inserted routes_keys full rs [] doc doc2 eq_refl Hp2).
Qed.

Lemma wildcard_composition_witness :
  let doc := sample.with_routes [] in
  let r1 := routes.AddWildcardRoute "example.com" (connect doc) in
  let r2 := routes.AddSubReverseProxy "example.com" "api"
              ["8080"; "8081"] "127.0.0.1" (snd r1) in
  get_at routes_keys doc = Some (JArray []) /\
  find_id wildcard_id doc = None /\
  get_at routes_keys (remote (snd r2))
    = Some (JArray [types.MarshalRoute scenario.composed]).
Proof.
  intros doc r1 r2. split; [reflexivity|]. split; [reflexivity|].
  exact (proj1 (proj2 (proj2
           (wildcard_composition doc [] eq_refl eq_refl)))).
Defined.

End wildcard.

(** ** RouteComposer: identifiers of wildcard routes and sub-routes *)
Section duplicate_identifiers.
Import api store scenario expected.

Lemma AddWildcardRoute_issued {W : Type} {R : Remote W} (domain : string)
    (c : Conn W) :
  issued (snd (routes.AddWildcardRoute domain c))
    = issued c ++ [Send "POST" (GetConfigURL routes.RoutesPath)
                        (types.MarshalRoute (routes.wildcardRoute domain))].
Proof. apply sendRequest_issued. Qed.

Lemma AddSubReverseProxy_issued {W : Type} {R : Remote W}
    (domain subdomain host : string) (ports : list string) (c : Conn W) :
  issued (snd (routes.AddSubReverseProxy domain subdomain ports host c))
    = issued c ++
      [Send "POST"
         (GetIDURL (("wildcard-" +:+ domain) +:+ "/handle/0/routes/..."))
         (JArray [types.MarshalRoute
                    (routes.subRoute domain subdomain ports host)])].
Proof. apply sendRequest_issued. Qed.

(** C2, evaluated.  [AddWildcardRoute] and [AddSubReverseProxy] issue
    one POST and nothing else, whatever the remote holds: against the
    remote tree, creating the wildcard route for [example.com] twice
    leaves two routes with identifier [wildcard-example.com], and
    appending the sub-route [api] twice leaves two sub-routes with
    identifier [api.example.com]. *)
Theorem wildcard_routes_duplicate_identifier :
  let w := types.MarshalRoute (routes.wildcardRoute "example.com") in
  let c1 := snd (routes.AddWildcardRoute "example.com"
                   (connect (sample.with_routes []))) in
  let r2 := routes.AddWildcardRoute "example.com" c1 in
  let sub := routes.AddSubReverseProxy "example.com" "api" ["8080"]
               "127.0.0.1" in
  let r4 := sub (snd (sub c1)) in
  fst r2 = None /\
  get_at routes_keys (remote (snd r2)) = Some (JArray [w; w]) /\
  List.filter (has_id wildcard_id) [w; w] = [w; w] /\
  List.filter is_delete (issued (snd r2)) = [] /\
  fst r4 = None /\
  (exists a : Json,
      has_id "api.example.com" a = true /\
      get_at (routes_keys ++ ["0"; "handle"; "0"; "routes"]) (remote (snd r4))
        = Some (JArray [a; a])) /\
  List.filter is_delete (issued (snd r4)) = [].
Proof.
  cbv zeta. split; [reflexivity|]. split; [reflexivity|].
  split; [reflexivity|]. split; [reflexivity|]. split; [reflexivity|].
  split; [|reflexivity].
  eexists. split; [|reflexivity]. reflexivity.
Qed.

End duplicate_identifiers.

(** ** RouteComposer: port arguments *)
Section ports.
Import api scenario.

Lemma portList_single_string (s : string) :
  routes.portList (VString s) = inl [s].
Proof. reflexivity. Qed.

Lemma portList_single_int (n : Z) :
  routes.portList (VInt n) = inl [strconv.Itoa n].
Proof. reflexivity. Qed.

Lemma portList_9000 :
  routes.portList (VInt 9000) = inl ["9000"] /\
  routes.portList (VString "9000") = inl ["9000"].
Proof. split; reflexivity. Qed.

(** A list of strings, ints and floats keeps its order; a float loses
    its fractional part. *)
Lemma portList_mixed :
  routes.portList (VList [VString "8080"; VInt 8081; VFloat64 float_8080;
                          VFloat64 float_8080_75])
    = inl ["8080"; "8081"; "8080"; "8080"].
Proof. reflexivity. Qed.

Lemma portList_supported_length (l : list Value) :
  forallb routes.supported_element l = true ->
  exists ports, routes.portList (VList l) = inl ports /\
                length ports = length l.
Proof.
  intros H. eexists. split; [reflexivity|].
  induction l as [|v l IH]; [reflexivity|]. simpl in *.
  apply andb_prop in H as [Hv Hl]. rewrite length_app, (IH Hl).
  now destruct v.
Qed.

(** A value that is neither a string, an int nor a list is refused. *)
Lemma portList_unsupported_value :
  routes.portList (VBool true) = inr (UnsupportedPortType (VBool true)) /\
  routes.portList (VFloat64 float_8080)
    = inr (UnsupportedPortType (VFloat64 float_8080)).
Proof. split; reflexivity. Qed.

(** C3, evaluated.  An element of a list that is neither a string, an
    int nor a float is not refused: it is left out, and the sub-route is
    sent with the remaining ports. *)
Theorem portList_skips_unsupported_element :
  routes.portList (VList [VString "8080"; VBool true; VInt 8081])
    = inl ["8080"; "8081"] /\
  (forall (W : Type) (R : Remote W) (domain subdomain host : string)
          (c : Conn W),
      routes.AddSubReverseProxyWithPorts domain subdomain
        (VList [VString "8080"; VBool true; VInt 8081]) host c
      = routes.AddSubReverseProxy domain subdomain ["8080"; "8081"] host c) /\
  fst (routes.AddSubReverseProxyWithPorts "example.com" "api"
         (VList [VBool true]) "127.0.0.1"
         (snd (routes.AddWildcardRoute "example.com"
                 (store.connect (sample.with_routes [])))))
    = None.
Proof. split; [reflexivity|]. split; reflexivity. Qed.

End ports.

(* ===================================================================== *)
(** * Further properties of the code *)
(* ===================================================================== *)

(** ** Trimming and joining *)
Section trimming.
Import strings config.

Lemma append_String (a : ascii) (s t : string) :
  String a s +:+ t = String a (s +:+ t).
Proof. reflexivity. Qed.

Lemma append_empty_l (s : string) : "" +:+ s = s.
Proof. reflexivity. Qed.

Lemma append_empty_r (s : string) : s +:+ "" = s.
Proof. induction s as [|a s IH]; [done|]. now rewrite append_String, IH. Qed.

Lemma append_assoc (a b c : string) : (a +:+ b) +:+ c = a +:+ (b +:+ c).
Proof.
  induction a as [|x a IH]; [done|]. now rewrite !append_String, IH.
Qed.

Lemma trimLeftByte_no_prefix (s : string) (c : ascii) :
  HasPrefix (trimLeftByte s c) c = false.
Proof.
  induction s as [|a s IH]; [done|]. simpl.
  destruct (Ascii.eqb a c) eqn:E; [exact IH | exact E].
Qed.

Lemma trimRightByte_no_suffix (s : string) (c : ascii) :
  HasSuffix (trimRightByte s c) c = false.
Proof.
  induction s as [|a s IH]; [done|]. simpl.
  destruct (trimRightByte s c) as [|b t] eqn:E.
  - destruct (Ascii.eqb a c) eqn:Ea; [done | exact Ea].
  - exact IH.
Qed.

Lemma trimLeftByte_keeps_suffix (s : string) (c : ascii) :
  HasSuffix s c = false -> HasSuffix (trimLeftByte s c) c = false.
Proof.
  induction s as [|a s IH]; [done|]. intros H. simpl.
  destruct (Ascii.eqb a c) eqn:E; [|exact H].
  apply IH. destruct s as [|b s]; [done|]. exact H.
Qed.

Lemma Trim_no_prefix (s : string) : HasPrefix (Trim s slash) slash = false.
Proof. apply trimLeftByte_no_prefix. Qed.

Lemma Trim_no_suffix (s : string) : HasSuffix (Trim s slash) slash = false.
Proof. apply trimLeftByte_keeps_suffix, trimRightByte_no_suffix. Qed.

Lemma Trim_id (s : string) :
  HasPrefix s slash = false -> HasSuffix s slash = false -> Trim s slash = s.
Proof.
  intros Hp Hs. unfold Trim.
  now rewrite (trimRightByte_id _ _ Hs), (trimLeftByte_id _ _ Hp).
Qed.

Lemma trimmed_parts (k : string) :
  trimmed k = true ->
  k <> "" /\ HasPrefix k slash = false /\ HasSuffix k slash = false.
Proof.
  unfold trimmed. intros [[Hne Hp]%andb_prop Hs]%andb_prop.
  apply negb_true_iff in Hne, Hp, Hs. apply String.eqb_neq in Hne. done.
Qed.

Lemma valid_key_trimmed (k : string) : valid_key k = true -> trimmed k = true.
Proof.
  intros (Hne & _ & Hp & Hs)%valid_key_parts. unfold trimmed.
  apply String.eqb_neq in Hne. now rewrite Hne, Hp, Hs.
Qed.

(** Joining trimmed components gives a text that is not empty and has no
    separator at either end. *)
Lemma Join_trimmed (k : string) (ks : list string) :
  forallb trimmed (k :: ks) = true ->
  Join (k :: ks) "/" <> "" /\
  HasPrefix (Join (k :: ks) "/") slash = false /\
  HasSuffix (Join (k :: ks) "/") slash = false.
Proof.
  revert k. induction ks as [|k' ks IH]; intros k H.
  - simpl in H. apply andb_prop in H as [Hk _].
    now apply trimmed_parts in Hk.
  - change (forallb trimmed (k :: k' :: ks))
      with (trimmed k && forallb trimmed (k' :: ks)) in H.
    apply andb_prop in H as [Hk H].
    destruct (trimmed_parts _ Hk) as (Hne & Hp & Hs).
    destruct (IH k' H) as (Jne & Jp & Js).
    rewrite Join_cons by discriminate.
    repeat split.
    + destruct k; [done | discriminate].
    + destruct k; [done | exact Hp].
    + rewrite HasSuffix_append by discriminate.
      change ("/" +:+ Join (k' :: ks) "/")
        with (String slash (Join (k' :: ks) "/")).
      destruct (Join (k' :: ks) "/") eqn:E; [done | exact Js].
Qed.

Lemma Split_pieces_separator_free (s : string) :
  forallb separator_free (Split s slash) = true.
Proof.
  induction s as [|a s IH]; [done|]. simpl.
  destruct (Ascii.eqb a slash) eqn:E; [exact IH|].
  pose proof (Split_nonempty s slash).
  destruct (Split s slash) as [|h t]; [done|]. simpl in *.
  now rewrite E.
Qed.

Lemma separator_free_no_ends (k : string) :
  separator_free k = true ->
  HasPrefix k slash = false /\ HasSuffix k slash = false.
Proof.
  intros Hk. split.
  - destruct k as [|a k]; [done|]. simpl in *.
    apply andb_prop in Hk as [Ha _]. now apply negb_true_iff in Ha.
  - induction k as [|a k IH]; [done|]. simpl in *.
    apply andb_prop in Hk as [Ha Hk]. apply negb_true_iff in Ha.
    destruct k; [exact Ha | exact (IH Hk)].
Qed.

End trimming.

(** ** [internal/utils]: paths *)
Section utils_paths.
Import strings config utils.

Lemma validComponents_trimmed (comps : list string) :
  forallb trimmed (validComponents comps) = true.
Proof.
  induction comps as [|c comps IH]; [done|]. simpl.
  destruct (String.eqb (Trim c slash) "") eqn:E; simpl; [exact IH|].
  rewrite IH, andb_true_r. unfold trimmed.
  now rewrite E, Trim_no_prefix, Trim_no_suffix.
Qed.

Lemma validComponents_valid_keys (keys : list string) :
  forallb valid_key keys = true -> validComponents keys = keys.
Proof.
  induction keys as [|k keys IH]; [done|]. simpl.
  intros [Hk Hks]%andb_prop.
  destruct (valid_key_parts _ Hk) as (Hne & _ & Hp & Hs).
  rewrite (Trim_id _ Hp Hs). apply String.eqb_neq in Hne.
  now rewrite Hne, (IH Hks).
Qed.

Lemma validComponents_separator_free (comps : list string) :
  forallb separator_free comps = true ->
  forallb valid_key (validComponents comps) = true.
Proof.
  induction comps as [|c comps IH]; [done|]. simpl.
  intros [Hc Hcs]%andb_prop.
  destruct (separator_free_no_ends _ Hc) as [Hp Hs].
  rewrite (Trim_id _ Hp Hs).
  destruct (String.eqb c "") eqn:E; simpl; [exact (IH Hcs)|].
  unfold valid_key at 1. now rewrite E, Hc, (IH Hcs).
Qed.

Lemma JoinPath_KeysToPath (comps : list string) :
  JoinPath comps = KeysToPath (validComponents comps).
Proof.
  unfold JoinPath, KeysToPath. destruct comps as [|c comps]; [done|].
  now destruct (validComponents (c :: comps)).
Qed.

(** X1. [JoinPath] always yields a normalized path, whatever the
    components hold; on components that are valid keys it agrees with
    [KeysToPath]. *)
Theorem JoinPath_normalized :
  forall comps : list string,
    normalized (JoinPath comps) = true /\
    (forallb valid_key comps = true -> JoinPath comps = KeysToPath comps).
Proof.
  intros comps. split.
  - rewrite JoinPath_KeysToPath.
    pose proof (validComponents_trimmed comps) as H.
    destruct (validComponents comps) as [|k ks]; [done|].
    destruct (Join_trimmed k ks H) as (Jne & Jp & Js).
    unfold KeysToPath.
    change ("/" +:+ Join (k :: ks) "/")
      with (String slash (Join (k :: ks) "/")).
    unfold normalized. now rewrite Ascii.eqb_refl, Jp, Js, orb_true_r.
  - intros H. now rewrite JoinPath_KeysToPath, (validComponents_valid_keys _ H).
Qed.

Lemma JoinPath_normalized_witness :
  forallb valid_key ["apps"; "http"] = true /\
  normalized (JoinPath ["/apps/"; ""; "//"; "http/"]) = true /\
  JoinPath ["apps"; "http"] = KeysToPath ["apps"; "http"].
Proof.
  split; [reflexivity|]. split.
  - apply (proj1 (JoinPath_normalized ["/apps/"; ""; "//"; "http/"])).
  - apply (proj2 (JoinPath_normalized ["apps"; "http"])). reflexivity.
Defined.

(** X2. Splitting a path and joining the pieces normalizes it: the
    result is a normalized path whose keys are all valid (empty pieces
    left by adjacent separators are gone), and splitting and joining it
    again changes nothing. *)
Theorem JoinPath_SplitPath_normalizes :
  forall p : string,
    let q := JoinPath (SplitPath p) in
    normalized q = true /\
    forallb valid_key (SplitPath q) = true /\
    JoinPath (SplitPath q) = q.
Proof.
  intros p q.
  assert (Hk : forallb valid_key (validComponents (SplitPath p)) = true).
  { apply validComponents_separator_free. unfold SplitPath.
    destruct (String.eqb (Trim p slash) ""); [done|].
    apply Split_pieces_separator_free. }
  assert (Hq : q = KeysToPath (validComponents (SplitPath p)))
    by apply JoinPath_KeysToPath.
  assert (Hs : SplitPath q = validComponents (SplitPath p)).
  { rewrite Hq. exact (PathToKeys_KeysToPath _ Hk). }
  split; [rewrite Hq; now apply KeysToPath_normalized|].
  split; [now rewrite Hs|].
  now rewrite Hs, JoinPath_KeysToPath, (validComponents_valid_keys _ Hk).
Qed.

Lemma HasSuffix_snoc (s : string) (c : ascii) :
  HasSuffix (s +:+ String c "") c = true.
Proof.
  induction s as [|a s IH].
  - rewrite append_empty_l. simpl. apply Ascii.eqb_refl.
  - rewrite append_String.
    destruct (s +:+ String c "") as [|b t] eqn:E; [|exact IH].
    destruct s; [rewrite append_empty_l in E | rewrite append_String in E];
      discriminate.
Qed.

Lemma HasPrefix_append (s t : string) (c : ascii) :
  HasPrefix s c = true -> HasPrefix (s +:+ t) c = true.
Proof. destruct s; [discriminate | easy]. Qed.

Lemma NormalizePath_fixed (s : string) :
  HasPrefix s slash = true -> HasSuffix s slash = true ->
  NormalizePath s = s.
Proof.
  intros Hp Hs. unfold NormalizePath. rewrite Hp, Hs.
  now destruct s.
Qed.

Lemma NormalizePath_ends (p : string) :
  HasPrefix (NormalizePath p) slash = true /\
  HasSuffix (NormalizePath p) slash = true.
Proof.
  unfold NormalizePath. destruct (String.eqb_spec p "") as [->|Hne]; [done|].
  set (p1 := if HasPrefix p slash then p else "/" +:+ p).
  assert (H1 : HasPrefix p1 slash = true).
  { unfold p1. destruct (HasPrefix p slash) eqn:E; [exact E | done]. }
  destruct (HasSuffix p1 slash) eqn:E2; [done|].
  split; [now apply HasPrefix_append | apply HasSuffix_snoc].
Qed.

(** X3. [NormalizePath] returns a path that begins and ends with a
    separator, and normalizing twice is the same as normalizing once;
    the URLs of the API client are the base URL, the namespace and the
    normalized path. *)
Theorem NormalizePath_idempotent :
  forall p : string,
    HasPrefix (NormalizePath p) slash = true /\
    HasSuffix (NormalizePath p) slash = true /\
    NormalizePath (NormalizePath p) = NormalizePath p /\
    api.GetConfigURL p = api.BaseURL +:+ "/config" +:+ NormalizePath p /\
    api.GetIDURL p = api.BaseURL +:+ "/id" +:+ NormalizePath p.
Proof.
  intros p. destruct (NormalizePath_ends p) as [Hp Hs].
  split; [exact Hp|]. split; [exact Hs|].
  split; [exact (NormalizePath_fixed _ Hp Hs)|].
  split; now destruct p.
Qed.

Lemma TrimSuffix_snoc (s : string) (c : ascii) :
  TrimSuffix (s +:+ String c "") c = s.
Proof.
  induction s as [|a s IH].
  - rewrite append_empty_l. simpl. now rewrite Ascii.eqb_refl.
  - rewrite append_String.
    destruct (s +:+ String c "") as [|b t] eqn:E.
    + destruct s; [rewrite append_empty_l in E | rewrite append_String in E];
        discriminate.
    + change (TrimSuffix (String a (String b t)) c)
        with (String a (TrimSuffix (String b t) c)).
      now rewrite IH.
Qed.

Lemma TrimSuffix_id (s : string) (c : ascii) :
  HasSuffix s c = false -> TrimSuffix s c = s.
Proof.
  induction s as [|a s IH]; [done|]. simpl.
  destruct s as [|b s]; [now intros ->|].
  intros H. now rewrite (IH H).
Qed.

Lemma TrimSuffix_prefix (a : ascii) (s : string) (c : ascii) :
  s <> "" -> TrimSuffix (String a s) c = String a (TrimSuffix s c).
Proof. now destruct s. Qed.

(** X4. [CleanPath] returns a path that begins with a separator, and
    removes the trailing separator [NormalizePath] adds: cleaning a
    normalized path gives what cleaning the path itself gives. *)
Theorem CleanPath_NormalizePath :
  forall p : string,
    HasPrefix (CleanPath p) slash = true /\
    CleanPath (NormalizePath p) = CleanPath p.
Proof.
  intros p.
  destruct (String.eqb_spec p "") as [->|Hne]; [done|].
  destruct (String.eqb_spec p "/") as [->|Hroot]; [done|].
  set (p1 := if HasPrefix p slash then p else "/" +:+ p).
  assert (Hshape : exists r, p1 = String slash r /\ r <> "").
  { unfold p1. destruct p as [|a r]; [done|]. simpl.
    destruct (Ascii.eqb_spec a slash) as [->|Ha].
    - exists r. split; [done|]. intros ->. now apply Hroot.
    - now exists (String a r). }
  destruct Hshape as (r & Hp1 & Hr).
  assert (Hc : CleanPath p = TrimSuffix p1 slash).
  { unfold CleanPath, p1.
    apply String.eqb_neq in Hne, Hroot. now rewrite Hne, Hroot. }
  assert (Hn : NormalizePath p
               = if HasSuffix p1 slash then p1 else p1 +:+ "/").
  { unfold NormalizePath, p1. apply String.eqb_neq in Hne. now rewrite Hne. }
  split.
  - rewrite Hc, Hp1, TrimSuffix_prefix by exact Hr. reflexivity.
  - rewrite Hc, Hn. destruct (HasSuffix p1 slash) eqn:Hs.
    + unfold CleanPath. rewrite Hp1.
      destruct r as [|b r]; [done|]. reflexivity.
    + rewrite (TrimSuffix_id _ _ Hs).
      assert (Hcl : CleanPath (p1 +:+ "/") = TrimSuffix (p1 +:+ "/") slash).
      { unfold CleanPath. rewrite Hp1, append_String.
        destruct (r +:+ "/") as [|b t] eqn:E; [|reflexivity].
        destruct r; [rewrite append_empty_l in E | rewrite append_String in E];
          discriminate. }
      rewrite Hcl. apply (TrimSuffix_snoc p1 slash).
Qed.

End utils_paths.

(** ** [internal/utils]: validation and collections *)
Section utils_checks.
Import strings utils.

Lemma Contains_append (s t : string) (c : ascii) :
  Contains (s +:+ t) c = Contains s c || Contains t c.
Proof.
  induction s as [|a s IH]; [done|].
  rewrite append_String. simpl. now rewrite IH, orb_assoc.
Qed.

Lemma ContainsAny_false (s chars : string) (c : ascii) :
  ContainsAny s chars = false -> Contains chars c = true ->
  Contains s c = false.
Proof.
  intros Hs Hc. induction s as [|a s IH]; [done|]. simpl in *.
  apply orb_false_elim in Hs as [Ha Hs]. rewrite (IH Hs), orb_false_r.
  destruct (Ascii.eqb_spec a c) as [->|]; congruence.
Qed.

Lemma Contains_separator_free (s : string) :
  Contains s slash = false -> separator_free s = true.
Proof.
  induction s as [|a s IH]; [done|]. simpl.
  intros [Ha Hs]%orb_false_elim. now rewrite Ha, (IH Hs).
Qed.

(** X5. A host that [ValidateHost] accepts is a valid path key: it is
    not empty and holds no separator, so the URL by which the client
    addresses it as an identifier is the base URL followed by
    [/id/<host>/]. *)
Theorem ValidateHost_valid_key :
  forall host : string,
    ValidateHost host = true ->
    valid_key host = true /\
    api.GetIDURL host = api.BaseURL +:+ "/id/" +:+ host +:+ "/".
Proof.
  intros host H. unfold ValidateHost in H.
  destruct (String.eqb host "") eqn:Hne; [discriminate|].
  destruct (ContainsAny host hostForbidden) eqn:Hc; [discriminate|].
  assert (Hv : valid_key host = true).
  { unfold valid_key. rewrite Hne. simpl.
    apply Contains_separator_free.
    now apply (ContainsAny_false host hostForbidden slash Hc). }
  split; [exact Hv | exact (GetIDURL_valid_key _ Hv)].
Qed.

Lemma ValidateHost_valid_key_witness :
  ValidateHost "api.example.com" = true /\
  valid_key "api.example.com" = true /\
  api.GetIDURL "api.example.com" = "http://localhost:2019/id/api.example.com/".
Proof.
  split; [reflexivity|].
  exact (ValidateHost_valid_key "api.example.com" eq_refl).
Defined.

(** X6. Every upstream address that [AddSubReverseProxy] builds passes
    [ValidateURL], whatever the host and the port are. *)
Theorem subRoute_dials_validate :
  forall (domain subdomain host : string) (ports : list string)
         (h : types.Handler) (u : types.Upstream),
    In h (types.Handle (routes.subRoute domain subdomain ports host)) ->
    In u (types.Upstreams h) ->
    ValidateURL (types.Dial u) = true.
Proof.
  intros domain subdomain host ports h u Hh Hu.
  simpl in Hh. destruct Hh as [<-|[]]. simpl in Hu.
  apply in_map_iff in Hu as (port & <- & _). simpl.
  unfold ValidateURL.
  set (hst := if String.eqb host "" then "localhost" else host).
  assert (Hc : Contains (hst +:+ ":" +:+ port) ":" = true).
  { rewrite Contains_append. simpl Contains at 2.
    now rewrite orb_true_r. }
  rewrite Hc. simpl.
  destruct (String.eqb_spec (hst +:+ ":" +:+ port) "") as [E|]; [|done].
  rewrite E in Hc. discriminate.
Qed.

Lemma subRoute_dials_validate_witness :
  ValidateURL "127.0.0.1:8080" = true.
Proof.
  apply (subRoute_dials_validate "example.com" "api" "127.0.0.1" ["8080"]
           (types.mkHandler "reverse_proxy"
              [types.mkUpstream "127.0.0.1:8080"] [])
           (types.mkUpstream "127.0.0.1:8080")).
  - left. reflexivity.
  - left. reflexivity.
Defined.

(** X7. [StringSliceContains] answers membership. *)
Theorem StringSliceContains_In :
  forall (slice : list string) (value : string),
    StringSliceContains slice value = true <-> In value slice.
Proof.
  intros slice value. induction slice as [|item rest IH]; simpl.
  - split; [discriminate | tauto].
  - destruct (String.eqb_spec item value) as [->|Hne].
    + split; [now left | done].
    + rewrite IH. split; [now right | intros [|]; [congruence | done]].
Qed.

Lemma map_fold_insert_union (m result : gmap string string) :
  map_fold (fun k v acc => <[k := v]> acc) result m = m ∪ result.
Proof.
  apply (map_fold_weak_ind (fun r m' => r = m' ∪ result)).
  - now rewrite (left_id_L ∅ (∪)).
  - intros i x m' r _ ->. now rewrite insert_union_l.
Qed.

(** X8. In the result of [MergeStringMaps] a key holds the value of the
    last map that has it: merging one more map gives, at every key, that
    map's value when it has one and the earlier result otherwise; the
    merge of no map is empty. *)
Theorem MergeStringMaps_last_wins :
  MergeStringMaps [] = ∅ /\
  forall (maps : list (gmap string string)) (m : gmap string string)
         (k : string),
    MergeStringMaps (maps ++ [m]) !! k
      = match m !! k with
        | Some v => Some v
        | None => MergeStringMaps maps !! k
        end.
Proof.
  split; [reflexivity|]. intros maps m k.
  unfold MergeStringMaps. rewrite fold_left_app. simpl.
  rewrite map_fold_insert_union.
  destruct (m !! k) as [v|] eqn:E.
  - now apply lookup_union_Some_l.
  - now apply lookup_union_r.
Qed.

End utils_checks.

(** ** PathCodec and NestedTree, further *)
Section codec_and_tree.
Import strings config.

(** X9. Decoding inverts encoding on valid keys: for every sequence of
    keys that are not empty and hold no separator, [PathToKeys] of
    [KeysToPath] is the sequence itself, and the encoded path is
    normalized. *)
Theorem PathToKeys_inverts_KeysToPath :
  forall keys : list string,
    forallb valid_key keys = true ->
    PathToKeys (KeysToPath keys) = keys /\
    normalized (KeysToPath keys) = true.
Proof.
  intros keys H. split.
  - exact (PathToKeys_KeysToPath keys H).
  - exact (KeysToPath_normalized keys H).
Qed.

Lemma PathToKeys_inverts_KeysToPath_witness :
  forallb valid_key ["apps"; "http"; "servers"] = true /\
  PathToKeys (KeysToPath ["apps"; "http"; "servers"])
    = ["apps"; "http"; "servers"].
Proof.
  split; [reflexivity|].
  exact (proj1 (PathToKeys_inverts_KeysToPath
                  ["apps"; "http"; "servers"] eq_refl)).
Defined.

Lemma lookup_from_ext (m1 m2 : gmap string Value) (k : string)
    (rest : list string) :
  m1 !! k = m2 !! k -> lookup_from m1 k rest = lookup_from m2 k rest.
Proof. intros H. destruct rest; simpl; now rewrite H. Qed.

Lemma lookup_from_empty (k : string) (rest : list string) :
  lookup_from ∅ k rest = None.
Proof. destruct rest; simpl; now rewrite lookup_empty. Qed.

Lemma NestedSetDict_from_other (m : gmap string Value) (v : Value)
    (a b : string) (s : list string) :
  a <> b -> NestedSetDict_from m v a s !! b = m !! b.
Proof.
  intros Hab. destruct s as [|next rest]; simpl.
  - now rewrite lookup_insert_ne.
  - set (m1 := match m !! a with
               | None | Some VNil => <[a := VMap ∅]> m
               | Some _ => m
               end).
    assert (H1 : m1 !! b = m !! b).
    { unfold m1. destruct (m !! a) as [[]|]; try done;
        now rewrite lookup_insert_ne. }
    destruct (m1 !! a) as [[]|]; now rewrite lookup_insert_ne.
Qed.

Lemma NestedSetDict_from_same (m : gmap string Value) (v : Value)
    (k next : string) (rest : list string) :
  NestedSetDict_from m v k (next :: rest) !! k
    = Some (VMap (NestedSetDict_from
                    (match m !! k with Some (VMap n) => n | _ => ∅ end)
                    v next rest)).
Proof.
  simpl. destruct (m !! k) as [x|] eqn:E.
  - destruct x; rewrite ?E; repeat (rewrite lookup_insert_eq; cbv iota);
      reflexivity.
  - repeat (rewrite lookup_insert_eq; cbv iota). reflexivity.
Qed.

Lemma lookup_from_cons (m : gmap string Value) (k next : string)
    (rest : list string) :
  lookup_from m k (next :: rest)
    = match m !! k with
      | Some (VMap nested) => lookup_from nested next rest
      | _ => None
      end.
Proof. reflexivity. Qed.

Lemma NestedSetDict_frame_from (p : list string) :
  forall (m : gmap string Value) (v : Value) (a b : string)
         (s s' : list string),
    a <> b ->
    lookup_keys (NestedSetDict (Some m) v (p ++ a :: s)) (p ++ b :: s')
      = lookup_keys (Some m) (p ++ b :: s').
Proof.
  induction p as [|k p IH]; intros m v a b s s' Hab.
  - simpl. apply lookup_from_ext. now apply NestedSetDict_from_other.
  - pose proof (IH ∅ v a b s s' Hab) as IHe.
    simpl app. unfold NestedSetDict, lookup_keys.
    unfold NestedSetDict, lookup_keys in IHe.
    destruct (p ++ a :: s) as [|next rest] eqn:E1; [now destruct p|].
    destruct (p ++ b :: s') as [|next' rest'] eqn:E2; [now destruct p|].
    rewrite !lookup_from_cons, NestedSetDict_from_same.
    rewrite lookup_from_empty in IHe.
    destruct (m !! k) as [x|]; [|exact IHe].
    destruct x; try exact IHe.
    pose proof (IH m0 v a b s s' Hab) as IHm.
    unfold NestedSetDict, lookup_keys in IHm. rewrite E1, E2 in IHm.
    exact IHm.
Qed.

(** X10. [NestedSetDict] leaves every other branch as it was: looking up
    a key sequence that leaves the written one at some key finds in the
    result what it found in the root. *)
Theorem NestedSetDict_frame :
  forall (r : option (gmap string Value)) (v : Value) (p : list string)
         (a b : string) (s s' : list string),
    a <> b ->
    lookup_keys (NestedSetDict r v (p ++ a :: s)) (p ++ b :: s')
      = lookup_keys r (p ++ b :: s').
Proof.
  intros [m|] v p a b s s' Hab; [now apply NestedSetDict_frame_from|].
  assert (E : NestedSetDict None v (p ++ a :: s)
              = NestedSetDict (Some ∅) v (p ++ a :: s))
    by now destruct p.
  rewrite E, (NestedSetDict_frame_from p ∅ v a b s s' Hab).
  destruct p; simpl; apply lookup_from_empty.
Qed.

Lemma NestedSetDict_frame_witness :
  lookup_keys
    (NestedSetDict (Some {["apps" := VMap {["tls" := VBool true]}]})
       (VBool false) ["apps"; "http"])
    ["apps"; "tls"]
  = Some (VBool true).
Proof.
  rewrite (NestedSetDict_frame
             (Some {["apps" := VMap {["tls" := VBool true]}]})
             (VBool false) ["apps"] "http" "tls" [] []);
    [|discriminate].
  simpl. rewrite lookup_singleton_eq. apply lookup_singleton_eq.
Defined.

Lemma NestedSetDict_from_cons (m : gmap string Value) (v : Value)
    (k next : string) (rest : list string) :
  NestedSetDict_from m v k (next :: rest)
    = <[k := VMap (NestedSetDict_from
                     (match m !! k with Some (VMap n) => n | _ => ∅ end)
                     v next rest)]>
        (match m !! k with
         | None | Some VNil => <[k := VMap ∅]> m
         | Some _ => m
         end).
Proof.
  simpl. destruct (m !! k) as [x|] eqn:E.
  - destruct x; rewrite ?E; repeat (rewrite lookup_insert_eq; cbv iota);
      reflexivity.
  - repeat (rewrite lookup_insert_eq; cbv iota). reflexivity.
Qed.

Lemma NestedSetDict_from_twice (rest : list string) :
  forall (m : gmap string Value) (v v' : Value) (k : string),
    NestedSetDict_from (NestedSetDict_from m v k rest) v' k rest
      = NestedSetDict_from m v' k rest.
Proof.
  induction rest as [|next rest IH]; intros m v v' k.
  - simpl. apply insert_insert_eq.
  - rewrite (NestedSetDict_from_cons (NestedSetDict_from m v k (next :: rest))).
    rewrite NestedSetDict_from_same. cbv iota.
    rewrite IH, !(NestedSetDict_from_cons m).
    now rewrite insert_insert_eq.
Qed.

(** X11. Writing twice at the same key sequence keeps the second value
    only: the result is what the second write alone gives. *)
Theorem NestedSetDict_overwrite :
  forall (r : option (gmap string Value)) (v v' : Value)
         (keys : list string),
    NestedSetDict (NestedSetDict r v keys) v' keys = NestedSetDict r v' keys.
Proof.
  intros r v v' [|k rest]; [reflexivity|]. simpl.
  now rewrite NestedSetDict_from_twice.
Qed.

End codec_and_tree.

(** ** The API client against any remote *)
Section client_any_remote.
Import api expected.
Context {W : Type} {R : Remote W}.

Lemma decode_map_ok (resp : Response) :
  (exists r, decode_map resp = inl r) <->
  resp = Reply 200 (Some JNull) \/
  exists o, resp = Reply 200 (Some (JObject o)).
Proof.
  split.
  - intros [r H]. destruct resp as [|status body]; [discriminate|].
    simpl in H. destruct (Z.eqb_spec status 200) as [->|]; [|discriminate].
    destruct body as [[]|]; try discriminate; [now left | right; eauto].
  - intros [->|[o ->]]; simpl; eauto.
Qed.

(** X12. [HasPath] and [HasID] issue one GET and leave the remote state
    as it is.  They answer true exactly when the reply has status 200 and
    a body that is a JSON object or [null]: a reply that carries a list
    or a scalar counts as absent. *)
Theorem HasPath_HasID_observe :
  forall (path : string) (c : Conn W),
    (snd (HasPath path c)
       = mkConn (remote c) (issued c ++ [Get (GetConfigURL path)]) /\
     (fst (HasPath path c) = true <->
      do_get (GetConfigURL path) (remote c) = Reply 200 (Some JNull) \/
      exists o, do_get (GetConfigURL path) (remote c)
                = Reply 200 (Some (JObject o)))) /\
    (snd (HasID path c)
       = mkConn (remote c) (issued c ++ [Get (GetIDURL path)]) /\
     (fst (HasID path c) = true <->
      do_get (GetIDURL path) (remote c) = Reply 200 (Some JNull) \/
      exists o, do_get (GetIDURL path) (remote c)
                = Reply 200 (Some (JObject o)))).
Proof.
  intros path c. split; (split; [reflexivity|]).
  - rewrite <- decode_map_ok.
    unfold HasPath, GetConfig, bind, ret. simpl.
    destruct (decode_map _); split; eauto; try discriminate.
    intros [? ?]. discriminate.
  - rewrite <- decode_map_ok.
    unfold HasID, GetByID, bind, ret. simpl.
    destruct (decode_map _); split; eauto; try discriminate.
    intros [? ?]. discriminate.
Qed.

(** X13. [sendRequest] returns nil exactly when the reply has a status
    from 200 to 299, and [DeleteByID] exactly when the status is 200 or
    204; in either case the remote state is the one the request left. *)
Theorem request_status_acceptance :
  (forall (method url : string) (data : Json) (c : Conn W),
      remote (snd (sendRequest method url data c))
        = snd (do_send (strings.ToUpper method) url data (remote c)) /\
      (fst (sendRequest method url data c) = None <->
       exists status body,
         fst (do_send (strings.ToUpper method) url data (remote c))
           = Reply status body /\
         (200 <= status < 300)%Z)) /\
  (forall (id : string) (c : Conn W),
      remote (snd (api.DeleteByID id c))
        = snd (do_delete (GetIDURL id) (remote c)) /\
      (fst (api.DeleteByID id c) = None <->
       exists status body,
         fst (do_delete (GetIDURL id) (remote c)) = Reply status body /\
         (status = 200 \/ status = 204)%Z)).
Proof.
  split.
  - intros method url data c. unfold sendRequest.
    destruct (do_send _ url data (remote c)) as [resp w]. simpl.
    split; [reflexivity|]. destruct resp as [|status body]; simpl.
    + split; [discriminate | intros (? & ? & ? & _); discriminate].
    + destruct (Z.ltb_spec status 200); simpl.
      * split; [destruct body as [[]|]; try discriminate;
                destruct (field "error" fields) as [[]|]; discriminate|].
        intros (s & b & E & Hs). injection E as -> ->. lia.
      * destruct (Z.leb_spec 300 status); simpl.
        -- split; [destruct body as [[]|]; try discriminate;
                   destruct (field "error" fields) as [[]|]; discriminate|].
           intros (s & b & E & Hs). injection E as -> ->. lia.
        -- split; [|done]. intros _. exists status, body. split; [done|lia].
  - intros id c. unfold api.DeleteByID.
    destruct (do_delete (GetIDURL id) (remote c)) as [resp w]. simpl.
    split; [reflexivity|]. destruct resp as [|status body]; simpl.
    + split; [discriminate | intros (? & ? & ? & _); discriminate].
    + destruct (Z.eqb_spec status 200) as [->|H200]; simpl.
      * split; [|done]. intros _. exists 200%Z, body. split; [done | now left].
      * destruct (Z.eqb_spec status 204) as [->|H204]; simpl.
        -- split; [|done]. intros _. exists 204%Z, body.
           split; [done | now right].
        -- split; [discriminate|].
           intros (s & b & E & Hs). injection E as -> ->. lia.
Qed.

Lemma InitPath_loop_skip_all (keys : list string) :
  forall (i : nat) (cur : list string) (skip : Z) (c : Conn W),
    (Z.of_nat (i + length keys) <= skip)%Z ->
    config.InitPath_loop keys i cur skip c = (None, c).
Proof.
  induction keys as [|key keys IH]; intros i cur skip c H; [reflexivity|].
  simpl in *. destruct (Z.ltb_spec (Z.of_nat i) skip); [|lia].
  apply IH. lia.
Qed.

Lemma InitPath_loop_skip_negative (keys : list string) :
  forall (i : nat) (cur : list string) (skip : Z) (c : Conn W),
    (skip <= 0)%Z ->
    config.InitPath_loop keys i cur skip c
      = config.InitPath_loop keys i cur 0 c.
Proof.
  induction keys as [|key keys IH]; intros i cur skip c H; [reflexivity|].
  simpl. destruct (Z.ltb_spec (Z.of_nat i) skip); [lia|].
  destruct (Z.ltb_spec (Z.of_nat i) 0); [lia|].
  unfold check, bind.
  destruct (PutConfig _ _ _ c) as [[e|] c1]; [reflexivity|].
  now apply IH.
Qed.

(** X14. The bounds of [skip] in [InitPath]: when [skip] is at least the
    number of keys nothing is sent and nil is returned; a negative [skip]
    behaves as zero. *)
Theorem InitPath_skip_bounds :
  forall (path : string) (skip : Z) (c : Conn W),
    ((Z.of_nat (length (config.PathToKeys path)) <= skip)%Z ->
     config.InitPath path skip c = (None, c)) /\
    ((skip <= 0)%Z ->
     config.InitPath path skip c = config.InitPath path 0 c).
Proof.
  intros path skip c. split; intros H.
  - now apply InitPath_loop_skip_all.
  - now apply InitPath_loop_skip_negative.
Qed.

(** X15. First writer wins: when the automation path already exists,
    [AddTLSInternalConfig] and [AddACMEConfig] return nil after the
    probing GET and change nothing. *)
Theorem tls_config_existing :
  forall (cfToken : string) (c : Conn W),
    fst (HasPath tls.AutomationPath c) = true ->
    tls.AddTLSInternalConfig c
      = (None,
         mkConn (remote c)
                (issued c ++ [Get (GetConfigURL tls.AutomationPath)])) /\
    tls.AddACMEConfig cfToken c
      = (None,
         mkConn (remote c)
                (issued c ++ [Get (GetConfigURL tls.AutomationPath)])).
Proof.
  intros cfToken c H.
  unfold tls.AddTLSInternalConfig, tls.AddACMEConfig, bind in *.
  unfold HasPath, GetConfig, bind, ret in *. simpl in *.
  destruct (decode_map _); [split; reflexivity | discriminate].
Qed.

(** X16. When the delete of the existing route fails, [AddReverseProxy]
    returns that error, wrapped, and appends nothing: the requests it
    issued are the probing read and the delete. *)
Theorem AddReverseProxy_failed_delete :
  forall (X u : string) (c : Conn W) (e : error),
    fst (HasID X c) = true ->
    fst (api.DeleteByID X (snd (HasID X c))) = Some e ->
    fst (routes.AddReverseProxy X u c)
      = Some (Wrapped "delete existing route" e) /\
    issued (snd (routes.AddReverseProxy X u c))
      = issued c ++ [Get (GetIDURL X); Delete (GetIDURL X)].
Proof.
  intros X u c e H He.
  unfold routes.AddReverseProxy, bind.
  pose proof (HasID_conn X c) as Hc.
  destruct (HasID X c) as [b c1]. simpl in H, Hc, He. subst b c1.
  pose proof (DeleteByID_issued X
                (mkConn (remote c) (issued c ++ [Get (GetIDURL X)]))) as Hd.
  destruct (api.DeleteByID X _) as [[e'|] c2]; simpl in He, Hd |- *;
    [|discriminate].
  injection He as ->. split; [reflexivity|].
  now rewrite Hd, <- app_assoc.
Qed.

(** X17. [SetupCaddy] reads the environment only in production mode
    with an empty token, where it takes [CADDY_CF_TOKEN] and, when that
    is empty, [CLOUDFLARE_API_TOKEN]; when both are empty too it sends
    nothing for TLS and goes on with the PKI trust and the routes. *)
Theorem SetupCaddy_environment :
  forall (getenv getenv' : string -> string)
         (cfToken serverName : string) (local : bool)
         (installTrust : option bool) (c : Conn W),
    (local = true \/ cfToken <> "" ->
     fastcaddy.SetupCaddy getenv cfToken serverName local installTrust c
       = fastcaddy.SetupCaddy getenv' cfToken serverName local installTrust c) /\
    (getenv utils.CloudflareTokenEnv <> "" ->
     fastcaddy.SetupCaddy getenv "" serverName false installTrust c
       = fastcaddy.SetupCaddy getenv (getenv utils.CloudflareTokenEnv)
           serverName false installTrust c) /\
    (getenv utils.CloudflareTokenEnv = "" ->
     getenv utils.CloudflareAltEnv <> "" ->
     fastcaddy.SetupCaddy getenv "" serverName false installTrust c
       = fastcaddy.SetupCaddy getenv (getenv utils.CloudflareAltEnv)
           serverName false installTrust c) /\
    (getenv utils.CloudflareTokenEnv = "" ->
     getenv utils.CloudflareAltEnv = "" ->
     fastcaddy.SetupCaddy getenv "" serverName false installTrust c
       = check (tls.SetupPKITrust installTrust)
           (routes.InitRoutes
              (if String.eqb serverName "" then "srv0" else serverName) 1)
           c).
Proof.
  intros getenv getenv' cfToken serverName local installTrust c.
  unfold fastcaddy.SetupCaddy, utils.GetCloudflareToken.
  split; [|split; [|split]].
  - intros [->|H]; [reflexivity|].
    apply String.eqb_neq in H. now rewrite H.
  - intros H. apply String.eqb_neq in H.
    repeat (first [rewrite H | progress simpl]). reflexivity.
  - intros H1 H2. apply String.eqb_neq in H2.
    repeat (first [rewrite H1 | rewrite H2 | progress simpl]). reflexivity.
  - intros H1 H2.
    repeat (first [rewrite H1 | rewrite H2 | progress simpl]). reflexivity.
Qed.

End client_any_remote.

Section client_any_remote_witnesses.
Import api store.

Lemma InitPath_skip_bounds_witness :
  (Z.of_nat (length (config.PathToKeys "/apps/http")) <= 2)%Z /\
  config.InitPath "/apps/http" 2 (connect sample.apps_only)
    = (None, connect sample.apps_only) /\
  config.InitPath "/apps/http" (-3) (connect sample.apps_only)
    = config.InitPath "/apps/http" 0 (connect sample.apps_only).
Proof.
  split; [simpl; lia|]. split.
  - apply (proj1 (InitPath_skip_bounds "/apps/http" 2
                    (connect sample.apps_only))).
    simpl. lia.
  - apply (proj2 (InitPath_skip_bounds "/apps/http" (-3)
                    (connect sample.apps_only))).
    lia.
Defined.

Lemma tls_config_existing_witness :
  let c := connect (sample.tls_policies tls.internalPolicies) in
  fst (HasPath tls.AutomationPath c) = true /\
  tls.AddTLSInternalConfig c
    = (None,
       mkConn (remote c)
              [Get "http://localhost:2019/config/apps/tls/automation/"]).
Proof.
  intros c. split; [reflexivity|].
  exact (proj1 (tls_config_existing "" c eq_refl)).
Defined.

Lemma AddReverseProxy_failed_delete_witness :
  let c := connect (sample.root_with_id "a.com") in
  fst (HasID "a.com" c) = true /\
  fst (api.DeleteByID "a.com" (snd (HasID "a.com" c)))
    = Some (BadStatus 404 None) /\
  fst (routes.AddReverseProxy "a.com" "localhost:3000" c)
    = Some (Wrapped "delete existing route" (BadStatus 404 None)).
Proof.
  intros c. split; [reflexivity|]. split; [reflexivity|].
  exact (proj1 (AddReverseProxy_failed_delete "a.com" "localhost:3000" c
                  (BadStatus 404 None) eq_refl eq_refl)).
Defined.

Lemma SetupCaddy_environment_witness :
  let unset := fun _ : string => "" in
  let c := connect sample.apps_only in
  fastcaddy.SetupCaddy unset "" "" false None c
    = check (tls.SetupPKITrust None) (routes.InitRoutes "srv0" 1) c /\
  fastcaddy.SetupCaddy unset "token" "" false None c
    = fastcaddy.SetupCaddy (fun _ => "other") "token" "" false None c.
Proof.
  intros unset c. split.
  - exact (proj2 (proj2 (proj2
             (SetupCaddy_environment unset unset "" "" false None c)))
             eq_refl eq_refl).
  - apply (proj1 (SetupCaddy_environment unset (fun _ => "other")
                    "token" "" false None c)).
    right. discriminate.
Defined.

End client_any_remote_witnesses.

(** ** Port arguments and the nested configuration *)
Section ports_and_config.
Import api.

(** X18. For a list argument the port normalization never fails, and it
    yields exactly one port per element that is a string, an int or a
    float, in the order of the list; every other element is left out. *)
Theorem portList_list_count :
  forall l : list Value,
    exists ports : list string,
      routes.portList (VList l) = inl ports /\
      length ports = length (List.filter routes.supported_element l) /\
      (forall (s : string) (rest : list Value),
          routes.portList (VList (VString s :: rest))
            = match routes.portList (VList rest) with
              | inl ps => inl (s :: ps)
              | inr e => inr e
              end).
Proof.
  intros l. eexists. split; [reflexivity|]. split; [|reflexivity].
  induction l as [|v l IH]; [reflexivity|]. simpl.
  rewrite length_app, IH. now destruct v.
Qed.

Section nested_config_any_remote.
Context {W : Type} {R : Remote W}.
Variable Unmarshal : list (string * Json) -> gmap string Value.
Variable Marshal : option (gmap string Value) -> Json.

(** X19. [NestedSetConfig] writes only after a successful read: when
    reading the root configuration fails it returns that error and the
    only request issued is the read; otherwise it issues the read and
    one POST of the updated configuration at the root. *)
Theorem NestedSetConfig_requests :
  forall (value : Value) (keys : list string) (c : Conn W),
    (forall err,
        fst (GetConfig "/" c) = inr err ->
        config.NestedSetConfig Unmarshal Marshal value keys c
          = (Some err,
             mkConn (remote c) (issued c ++ [Get (GetConfigURL "/")]))) /\
    (forall config,
        fst (GetConfig "/" c) = inl config ->
        issued (snd (config.NestedSetConfig Unmarshal Marshal value keys c))
          = issued c ++
            [Get (GetConfigURL "/");
             Send "POST" (GetConfigURL "/")
               (Marshal (config.NestedSetDict (option_map Unmarshal config)
                           value keys))]).
Proof.
  intros value keys c. unfold config.NestedSetConfig, bind.
  assert (Hc : snd (GetConfig "/" c)
               = mkConn (remote c) (issued c ++ [Get (GetConfigURL "/")]))
    by reflexivity.
  destruct (GetConfig "/" c) as [r c1]. simpl in Hc |- *. subst c1.
  split.
  - intros err ->. reflexivity.
  - intros config ->. unfold PutConfig.
    rewrite sendRequest_issued. simpl. now rewrite <- app_assoc.
Qed.

End nested_config_any_remote.

Lemma NestedSetConfig_requests_witness :
  let c := store.connect (JArray []) in
  fst (GetConfig "/" c) = inr (Wrapped "decode" BadJSON) /\
  config.NestedSetConfig (fun _ => ∅) (fun _ => JNull) VNil ["apps"] c
    = (Some (Wrapped "decode" BadJSON),
       mkConn (JArray []) [Get "http://localhost:2019/config/"]).
Proof.
  intros c. split; [reflexivity|].
  exact (proj1 (NestedSetConfig_requests (fun _ => ∅) (fun _ => JNull)
                  VNil ["apps"] c) _ eq_refl).
Defined.

End ports_and_config.

(** ** Routes against the remote tree *)
Section routes_on_store.
Import api store expected.

Lemma post_at_missing_parent (p : list string) (k : string) (v : Json)
    (e : bool) :
  forall doc : Json,
    get_at p doc = None -> post_at (p ++ [k]) v e doc = None.
Proof.
  induction p as [|seg p IH]; intros doc H; [discriminate|].
  simpl in H. simpl app.
  destruct (p ++ [k]) as [|s2 rest] eqn:E; [now destruct p|].
  rewrite post_at_cons. destruct (child seg doc) as [c|]; [|done].
  now rewrite (IH c H).
Qed.

Lemma serve_send_routes_missing (body doc : Json) :
  get_at ["apps"; "http"; "servers"; "srv0"] doc = None ->
  serve_send "POST" (GetConfigURL routes.RoutesPath) body doc
    = (not_found, doc).
Proof.
  intros H. unfold serve_send. rewrite parse_url_routes.
  change (negb (String.eqb "POST" "POST")) with false.
  cbv beta iota. unfold resolve.
  change (split_ellipsis routes_keys) with (routes_keys, false).
  cbv beta iota.
  change routes_keys with (["apps"; "http"; "servers"; "srv0"] ++ ["routes"]).
  now rewrite (post_at_missing_parent _ "routes" body false doc H).
Qed.

(** X20. [AddRoute] appends: when the remote holds the route list of
    [srv0], the route is added at its end and the routes before it stay
    in place.  When the server [srv0] is absent it fails, and the remote
    is left as it was. *)
Theorem AddRoute_appends :
  forall (r : types.Route) (doc : Json) (sent : list Request),
    (forall rs : list Json,
        get_at routes_keys doc = Some (JArray rs) ->
        fst (routes.AddRoute r (mkConn doc sent)) = None /\
        get_at routes_keys (remote (snd (routes.AddRoute r (mkConn doc sent))))
          = Some (JArray (rs ++ [types.MarshalRoute r]))) /\
    (get_at ["apps"; "http"; "servers"; "srv0"] doc = None ->
     routes.AddRoute r (mkConn doc sent)
       = (Some (BadStatus 404 (Some "not found")),
          mkConn doc
            (sent ++ [Send "POST" (GetConfigURL routes.RoutesPath)
                           (types.MarshalRoute r)]))).
Proof.
  intros r doc sent. split.
  - intros rs Hg.
    destruct (AddRoute_store r doc rs sent Hg) as (doc' & Hp & Ha).
    rewrite Ha. split; [reflexivity|].
    exact (get_put_at routes_keys _ doc doc' eq_refl Hp).
  - intros H. unfold routes.AddRoute, PutConfig, sendRequest.
    change (strings.ToUpper "POST") with "POST". cbv zeta.
    change (remote (mkConn doc sent)) with doc.
    change (do_send "POST" (GetConfigURL routes.RoutesPath)
              (types.MarshalRoute r) doc)
      with (serve_send "POST" (GetConfigURL routes.RoutesPath)
              (types.MarshalRoute r) doc).
    now rewrite (serve_send_routes_missing _ _ H).
Qed.

Lemma AddRoute_appends_witness :
  let r := routes.reverseProxyRoute "a.com" "localhost:3000" in
  get_at routes_keys (sample.with_routes []) = Some (JArray []) /\
  get_at ["apps"; "http"; "servers"; "srv0"] sample.apps_only = None /\
  get_at routes_keys
    (remote (snd (routes.AddRoute r (connect (sample.with_routes [])))))
    = Some (JArray [types.MarshalRoute r]) /\
  fst (routes.AddRoute r (connect sample.apps_only))
    = Some (BadStatus 404 (Some "not found")).
Proof.
  intros r. split; [reflexivity|]. split; [reflexivity|]. split.
  - exact (proj2 (proj1 (AddRoute_appends r (sample.with_routes []) [])
                    [] eq_refl)).
  - exact (f_equal fst
             (proj2 (AddRoute_appends r sample.apps_only []) eq_refl)).
Defined.

Lemma DeleteByID_store_present (id : string) (doc doc' : Json)
    (p : list string) (sent : list Request) :
  valid_key id = true -> find_id id doc = Some p ->
  delete_at p doc = Some doc' ->
  api.DeleteByID id (mkConn doc sent)
    = (None, mkConn doc' (sent ++ [Delete (GetIDURL id)])).
Proof.
  intros Hv Hf Hd. unfold api.DeleteByID. simpl.
  now rewrite (serve_delete_present _ _ _ _ Hv Hf Hd).
Qed.

Lemma HasID_store_absent (id : string) (doc : Json) (sent : list Request) :
  valid_key id = true -> find_id id doc = None ->
  HasID id (mkConn doc sent)
    = (false, mkConn doc (sent ++ [Get (GetIDURL id)])).
Proof.
  intros Hv Hf. unfold HasID, GetByID, bind, ret. simpl.
  now rewrite (serve_get_absent _ _ Hv Hf).
Qed.

(** X21. Adding a reverse proxy and deleting it by its identifier gives
    the document back: on a remote that holds the route list and no
    object with the identifier, both calls return nil, the remote ends as
    it began, and the identifier is absent again. *)
Theorem AddReverseProxy_then_DeleteByID :
  forall (doc : Json) (rs : list Json) (X u : string),
    valid_key X = true ->
    get_at routes_keys doc = Some (JArray rs) ->
    find_id X doc = None ->
    let r1 := routes.AddReverseProxy X u (connect doc) in
    let r2 := routes.DeleteByID X (snd r1) in
    fst r1 = None /\ fst r2 = None /\
    remote (snd r2) = doc /\
    fst (HasID X (snd r2)) = false.
Proof.
  intros doc rs X u Hv Hg Hf r1 r2.
  destruct (valid_key_inv _ Hv) as (_ & Hne & _).
  set (new := types.MarshalRoute (routes.reverseProxyRoute X u)).
  assert (Hid : has_id X new = true)
    by now apply (has_id_MarshalRoute (routes.reverseProxyRoute X u)).
  destruct (AddRoute_store (routes.reverseProxyRoute X u) doc rs
              ([] ++ [Get (GetIDURL X)]) Hg) as (doc1 & Hp1 & Ha1).
  fold new in Hp1, Ha1.
  assert (Hr1 : r1 = (None, mkConn doc1
                     (([] ++ [Get (GetIDURL X)]) ++
                      [Send "POST" (GetConfigURL routes.RoutesPath) new]))).
  { unfold r1, connect. rewrite (AddReverseProxy_absent _ _ _ _ Hv Hf).
    exact Ha1. }
  pose proof (find_id_put_at X new rs rs [] routes_keys
                (eq_sym (app_nil_r rs)) doc doc1 eq_refl Hf Hg Hid Hp1)
    as Hf1.
  pose proof (delete_at_inserted new rs rs [] routes_keys
                (eq_sym (app_nil_r rs)) doc doc1 eq_refl Hg Hp1) as Hd1.
  unfold r2, routes.DeleteByID. rewrite Hr1. cbn [fst snd].
  rewrite (DeleteByID_store_present _ _ _ _ _ Hv Hf1 Hd1).
  cbn [fst snd remote].
  repeat split. now rewrite (HasID_store_absent _ _ _ Hv Hf).
Qed.

Lemma AddReverseProxy_then_DeleteByID_witness :
  let doc := sample.with_routes [] in
  valid_key "a.com" = true /\
  get_at routes_keys doc = Some (JArray []) /\
  find_id "a.com" doc = None /\
  remote (snd (routes.DeleteByID "a.com"
                 (snd (routes.AddReverseProxy "a.com" "localhost:3000"
                         (connect doc)))))
    = doc.
Proof.
  intros doc. do 3 (split; [reflexivity|]).
  exact (proj1 (proj2 (proj2
           (AddReverseProxy_then_DeleteByID doc [] "a.com" "localhost:3000"
              eq_refl eq_refl eq_refl)))).
Defined.

(** X22. Deleting an identifier that no object carries is an error: the
    delete is sent, [DeleteByID] returns the 404 it gets, and the remote
    is left as it was. *)
Theorem DeleteByID_absent :
  forall (doc : Json) (id : string) (sent : list Request),
    valid_key id = true -> find_id id doc = None ->
    routes.DeleteByID id (mkConn doc sent)
      = (Some (BadStatus 404 None),
         mkConn doc (sent ++ [Delete (GetIDURL id)])).
Proof.
  intros doc id sent Hv Hf. unfold routes.DeleteByID, api.DeleteByID. simpl.
  unfold serve_delete. rewrite (parse_url_id _ Hv). simpl.
  now rewrite Hf.
Qed.

Lemma DeleteByID_absent_witness :
  valid_key "a.com" = true /\
  find_id "a.com" (sample.with_routes []) = None /\
  fst (routes.DeleteByID "a.com" (connect (sample.with_routes [])))
    = Some (BadStatus 404 None).
Proof.
  do 2 (split; [reflexivity|]).
  exact (f_equal fst
           (DeleteByID_absent (sample.with_routes []) "a.com" []
              eq_refl eq_refl)).
Defined.

End routes_on_store.

(** ** Sub-routes of a wildcard route against the remote tree *)
Section subroutes_on_store.
Import api store expected layout strings.

Lemma trimRightByte_snoc (s : string) :
  HasSuffix s slash = false -> trimRightByte (s +:+ "/") slash = s.
Proof.
  induction s as [|a s IH]; [reflexivity|]. intros H.
  rewrite append_String. simpl.
  destruct s as [|b s].
  - simpl in H. rewrite append_empty_l. simpl. now rewrite H.
  - change (HasSuffix (String b s) slash = false) in H.
    rewrite (IH H). reflexivity.
Qed.

Lemma GetIDURL_plain (p : string) :
  p <> "" -> HasPrefix p slash = false -> HasSuffix p slash = false ->
  GetIDURL p = BaseURL +:+ "/id/" +:+ p +:+ "/".
Proof.
  intros Hne Hp Hs. unfold GetIDURL. rewrite Hp.
  destruct p as [|a p]; [done|].
  change (HasSuffix ("/" +:+ String a p) slash)
    with (HasSuffix (String a p) slash).
  now rewrite Hs.
Qed.

Lemma parse_url_subroute (domain : string) :
  separator_free domain = true ->
  parse_url (GetIDURL (("wildcard-" +:+ domain) +:+ "/handle/0/routes/..."))
    = Some (ById ("wildcard-" +:+ domain) ["handle"; "0"; "routes"; "..."]).
Proof.
  intros Hd.
  set (wid := "wildcard-" +:+ domain).
  assert (Hw : separator_free wid = true) by exact Hd.
  assert (Hs : HasSuffix (wid +:+ "/handle/0/routes/...") slash = false).
  { rewrite HasSuffix_append by discriminate. reflexivity. }
  rewrite GetIDURL_plain; [| discriminate | reflexivity | exact Hs].
  unfold parse_url. rewrite strip_prefix_app.
  change (strip_prefix "/config/"
            ("/id/" +:+ (wid +:+ "/handle/0/routes/...") +:+ "/"))
    with (@None string).
  rewrite strip_prefix_app. unfold segments, Trim.
  rewrite (trimRightByte_snoc _ Hs).
  rewrite trimLeftByte_id by reflexivity.
  change ((wid +:+ "/handle/0/routes/..." =? "")%string) with false.
  cbv iota.
  change (wid +:+ "/handle/0/routes/...")
    with (wid +:+ "/" +:+ "handle/0/routes/...").
  now rewrite (Split_append_separator _ _ Hw).
Qed.

Lemma has_id_wildcardWith (domain : string) (subs : list types.Route) :
  has_id ("wildcard-" +:+ domain)
         (types.MarshalRoute (wildcardWith domain subs)) = true.
Proof. now apply (has_id_MarshalRoute (wildcardWith domain subs)). Qed.

Lemma post_subroute_append (domain : string) (subs : list types.Route)
    (r : types.Route) :
  post_at ["handle"; "0"; "routes"] (JArray [types.MarshalRoute r]) true
    (types.MarshalRoute (wildcardWith domain subs))
  = Some (types.MarshalRoute (wildcardWith domain (subs ++ [r]))).
Proof.
  destruct subs as [|s ss]; [reflexivity|].
  change (types.MarshalRoute (wildcardWith domain ((s :: ss) ++ [r])))
    with (JObject
            [("@id", JString ("wildcard-" +:+ domain));
             ("match",
              JArray [JObject [("host", JArray [JString ("*." +:+ domain)])]]);
             ("handle",
              JArray
                [JObject
                   [("handler", JString "subroute");
                    ("routes",
                     JArray (map types.MarshalRoute ((s :: ss) ++ [r])))]]);
             ("terminal", JBool true)]).
  rewrite map_app. reflexivity.
Qed.

Lemma serve_send_subroute (domain : string) (body doc : Json) :
  separator_free domain = true ->
  serve_send "POST"
    (GetIDURL (("wildcard-" +:+ domain) +:+ "/handle/0/routes/...")) body doc
  = match find_id ("wildcard-" +:+ domain) doc with
    | None => (not_found, doc)
    | Some p =>
        match post_at (p ++ ["handle"; "0"; "routes"]) body true doc with
        | Some doc' => (ok, doc')
        | None => (not_found, doc)
        end
    end.
Proof.
  intros Hd. unfold serve_send. rewrite (parse_url_subroute _ Hd).
  change (negb (String.eqb "POST" "POST")) with false. cbv beta iota.
  unfold resolve. destruct (find_id _ doc) as [p|]; [|reflexivity].
  now rewrite split_ellipsis_subroutes.
Qed.

Lemma AddSubReverseProxy_serve (domain subdomain host : string)
    (ports : list string) (doc : Json) (sent : list Request) :
  routes.AddSubReverseProxy domain subdomain ports host (mkConn doc sent)
  = let resp :=
      serve_send "POST"
        (GetIDURL (("wildcard-" +:+ domain) +:+ "/handle/0/routes/..."))
        (JArray [types.MarshalRoute
                   (routes.subRoute domain subdomain ports host)]) doc in
    (send_error (fst resp),
     mkConn (snd resp)
       (sent ++ [subroute_request domain subdomain ports host])).
Proof.
  unfold routes.AddSubReverseProxy, PutByID, sendRequest.
  change (strings.ToUpper "POST") with "POST". cbv zeta.
  change (remote (mkConn doc sent)) with doc.
  change (do_send "POST" ?u ?b doc) with (serve_send "POST" u b doc).
  now destruct (serve_send _ _ _ doc).
Qed.

(** X23. A sub-route needs its wildcard route: when no object carries
    the identifier [wildcard-<domain>], [AddSubReverseProxy] fails with
    the 404 of the remote and changes nothing; it never creates the
    wildcard route. *)
Theorem AddSubReverseProxy_without_wildcard :
  forall (doc : Json) (domain subdomain host : string)
         (ports : list string) (sent : list Request),
    separator_free domain = true ->
    find_id ("wildcard-" +:+ domain) doc = None ->
    routes.AddSubReverseProxy domain subdomain ports host (mkConn doc sent)
      = (Some (BadStatus 404 (Some "not found")),
         mkConn doc (sent ++ [subroute_request domain subdomain ports host])).
Proof.
  intros doc domain subdomain host ports sent Hd Hf.
  rewrite AddSubReverseProxy_serve, (serve_send_subroute _ _ _ Hd), Hf.
  reflexivity.
Qed.

Lemma AddSubReverseProxy_without_wildcard_witness :
  separator_free "example.com" = true /\
  find_id "wildcard-example.com" (sample.with_routes []) = None /\
  fst (routes.AddSubReverseProxy "example.com" "api" ["8080"] ""
         (connect (sample.with_routes [])))
    = Some (BadStatus 404 (Some "not found")).
Proof.
  do 2 (split; [reflexivity|]).
  exact (f_equal fst
           (AddSubReverseProxy_without_wildcard (sample.with_routes [])
              "example.com" "api" "" ["8080"] [] eq_refl eq_refl)).
Defined.

(** X24. [AddSubReverseProxy] appends to the sub-routes of the wildcard
    route and touches nothing else: when the route list holds the
    wildcard route of [domain] with sub-routes [subs] (and no other
    object carries its identifier), the call returns nil and the list
    then holds, at the same place, the wildcard route with sub-routes
    [subs] followed by the new one. *)
Theorem AddSubReverseProxy_appends :
  forall (doc0 doc : Json) (l1 l2 : list Json) (domain subdomain host : string)
         (ports : list string) (subs : list types.Route)
         (sent : list Request),
    separator_free domain = true ->
    get_at routes_keys doc0 = Some (JArray (l1 ++ l2)) ->
    find_id ("wildcard-" +:+ domain) doc0 = None ->
    put_at routes_keys
      (JArray (l1 ++ types.MarshalRoute (wildcardWith domain subs) :: l2))
      doc0 = Some doc ->
    let new := routes.subRoute domain subdomain ports host in
    let r := routes.AddSubReverseProxy domain subdomain ports host
               (mkConn doc sent) in
    fst r = None /\
    issued (snd r) = sent ++ [subroute_request domain subdomain ports host] /\
    put_at routes_keys
      (JArray (l1 ++ types.MarshalRoute (wildcardWith domain (subs ++ [new]))
                 :: l2))
      doc0 = Some (remote (snd r)) /\
    get_at routes_keys (remote (snd r))
      = Some (JArray (l1 ++
                      types.MarshalRoute (wildcardWith domain (subs ++ [new]))
                      :: l2)).
Proof.
  intros doc0 doc l1 l2 domain subdomain host ports subs sent Hd Hg Hf Hp
         new r.
  subst new. set (new := routes.subRoute domain subdomain ports host) in *.
  set (wild := types.MarshalRoute (wildcardWith domain subs)) in *.
  set (wild' := types.MarshalRoute (wildcardWith domain (subs ++ [new]))).
  pose proof (find_id_put_at _ wild _ l1 l2 routes_keys eq_refl doc0 doc
                eq_refl Hf Hg (has_id_wildcardWith domain subs) Hp) as Hf1.
  destruct (put_at_exists routes_keys (JArray (l1 ++ wild' :: l2)) doc0 _
              eq_refl Hg) as (doc' & Hp').
  assert (Hr : r = (None, mkConn doc'
                     (sent ++ [subroute_request domain subdomain ports host]))).
  { unfold r. rewrite AddSubReverseProxy_serve, (serve_send_subroute _ _ _ Hd).
    rewrite Hf1, <- app_assoc. cbn [app]. fold new.
    rewrite (post_at_inside _ wild wild' true ["handle"; "0"; "routes"]
               (l1 ++ l2) l1 l2 routes_keys ltac:(discriminate)
               (post_subroute_append domain subs new) doc0 doc eq_refl Hg Hp).
    now rewrite Hp'. }
  rewrite Hr. cbn [fst snd remote issued].
  repeat split; [exact Hp'|].
  exact (get_put_at routes_keys _ doc0 doc' eq_refl Hp').
Qed.

Lemma AddSubReverseProxy_appends_witness :
  let first := routes.subRoute "example.com" "api" ["8080"] "" in
  let doc := sample.with_routes
               [types.MarshalRoute (wildcardWith "example.com" [first])] in
  let r := routes.AddSubReverseProxy "example.com" "web" ["3000"; "3001"]
             "10.0.0.1" (connect doc) in
  separator_free "example.com" = true /\
  get_at routes_keys (sample.with_routes []) = Some (JArray []) /\
  find_id "wildcard-example.com" (sample.with_routes []) = None /\
  put_at routes_keys
    (JArray [types.MarshalRoute (wildcardWith "example.com" [first])])
    (sample.with_routes []) = Some doc /\
  get_at routes_keys (remote (snd r))
    = Some (JArray
              [types.MarshalRoute
                 (wildcardWith "example.com"
                    [first;
                     routes.subRoute "example.com" "web" ["3000"; "3001"]
                       "10.0.0.1"])]).
Proof.
  intros first doc r. do 4 (split; [reflexivity|]).
  exact (proj2 (proj2 (proj2
           (AddSubReverseProxy_appends (sample.with_routes []) doc [] []
              "example.com" "web" "10.0.0.1" ["3000"; "3001"] [first] []
              eq_refl eq_refl eq_refl eq_refl)))).
Defined.

End subroutes_on_store.

(** ** Set-up against the remote tree *)
Section setup_on_store.
Import api store expected layout strings.

Lemma split_ellipsis_eqb (p : list string) :
  split_ellipsis p
    = match last p with
      | Some s => if String.eqb s "..." then (removelast p, true)
                  else (p, false)
      | None => (p, false)
      end.
Proof.
  unfold split_ellipsis. destruct (last p) as [s|]; [|reflexivity].
  destruct s as [|[b0 b1 b2 b3 b4 b5 b6 b7] s]; [reflexivity|].
  destruct b0; try reflexivity. destruct b1; try reflexivity.
  destruct b2; try reflexivity. destruct b3; try reflexivity.
  destruct b4; try reflexivity. destruct b5; try reflexivity.
  destruct b6; try reflexivity. destruct b7; try reflexivity.
  destruct s as [|[c0 c1 c2 c3 c4 c5 c6 c7] s]; [reflexivity|].
  destruct c0; try reflexivity. destruct c1; try reflexivity.
  destruct c2; try reflexivity. destruct c3; try reflexivity.
  destruct c4; try reflexivity. destruct c5; try reflexivity.
  destruct c6; try reflexivity. destruct c7; try reflexivity.
  destruct s as [|[d0 d1 d2 d3 d4 d5 d6 d7] s]; [reflexivity|].
  destruct d0; try reflexivity. destruct d1; try reflexivity.
  destruct d2; try reflexivity. destruct d3; try reflexivity.
  destruct d4; try reflexivity. destruct d5; try reflexivity.
  destruct d6; try reflexivity. destruct d7; try reflexivity.
  destruct s; reflexivity.
Qed.

Lemma split_ellipsis_plain (p : list string) (k : string) :
  String.eqb k "..." = false -> split_ellipsis (p ++ [k]) = (p ++ [k], false).
Proof. intros H. now rewrite split_ellipsis_eqb, last_snoc, H. Qed.

(** A POST of the client at a path of the configuration. *)
Lemma PutConfig_store (body : Json) (path : string) (p : list string)
    (doc : Json) (sent : list Request) :
  parse_url (GetConfigURL path) = Some (ByPath p) ->
  split_ellipsis p = (p, false) ->
  PutConfig body path "POST" (mkConn doc sent)
    = match post_at p body false doc with
      | Some doc' =>
          (None, mkConn doc' (sent ++ [Send "POST" (GetConfigURL path) body]))
      | None =>
          (Some (BadStatus 404 (Some "not found")),
           mkConn doc (sent ++ [Send "POST" (GetConfigURL path) body]))
      end.
Proof.
  intros Hu He. unfold PutConfig, sendRequest.
  change (strings.ToUpper "POST") with "POST". cbv zeta.
  change (remote (mkConn doc sent)) with doc.
  change (do_send "POST" (GetConfigURL path) body doc)
    with (serve_send "POST" (GetConfigURL path) body doc).
  unfold serve_send. rewrite Hu.
  change (negb (String.eqb "POST" "POST")) with false. cbv beta iota.
  unfold resolve. rewrite He.
  now destruct (post_at p body false doc).
Qed.

Lemma append_nonempty_r (s t : string) : t <> "" -> s +:+ t <> "".
Proof. destruct s; [now rewrite append_empty_l | discriminate]. Qed.

Lemma trimRightByte_append (s t : string) :
  trimRightByte t slash <> "" ->
  trimRightByte (s +:+ t) slash = s +:+ trimRightByte t slash.
Proof.
  intros Ht. induction s as [|a s IH]; [reflexivity|].
  rewrite !append_String. simpl. rewrite IH.
  pose proof (append_nonempty_r s _ Ht) as Hne.
  now destruct (s +:+ trimRightByte t slash).
Qed.

Lemma parse_url_server (name : string) :
  valid_key name = true ->
  parse_url (GetConfigURL (routes.ServersPath +:+ "/" +:+ name))
    = Some (ByPath (servers_keys ++ [name])).
Proof.
  intros Hv. destruct (valid_key_parts _ Hv) as (Hne & Hf & Hp & Hs).
  assert (Hsuf : HasSuffix (routes.ServersPath +:+ "/" +:+ name) slash
                 = false).
  { change (routes.ServersPath +:+ "/" +:+ name)
      with ("/apps/http/servers/" +:+ name).
    now rewrite HasSuffix_append. }
  unfold GetConfigURL.
  change (HasPrefix (routes.ServersPath +:+ "/" +:+ name) slash) with true.
  cbv iota. rewrite Hsuf.
  change (BaseURL +:+ "/config" +:+
          (routes.ServersPath +:+ "/" +:+ name) +:+ "/")
    with (BaseURL +:+ "/config/" +:+
          ("apps/http/servers/" +:+ (name +:+ "/"))).
  unfold parse_url. rewrite !strip_prefix_app. unfold segments, Trim.
  rewrite trimRightByte_append;
    rewrite (separator_free_trimRight _ Hf); [|exact Hne].
  rewrite trimLeftByte_id by reflexivity.
  change (("apps/http/servers/" +:+ name =? "")%string) with false.
  cbv iota.
  change ("apps/http/servers/" +:+ name)
    with ("apps" +:+ "/" +:+ "http" +:+ "/" +:+ "servers" +:+ "/" +:+ name).
  rewrite !Split_append_separator by reflexivity.
  now rewrite (Split_separator_free _ Hf).
Qed.

Lemma server_name_ok_parts (name : string) :
  server_name_ok name = true ->
  valid_key name = true /\ is_name name = true /\
  String.eqb name "..." = false.
Proof.
  unfold server_name_ok. intros [[Hv Hn]%andb_prop He]%andb_prop.
  now apply negb_true_iff in He.
Qed.

Lemma PutConfig_server (body : Json) (name : string) (doc : Json)
    (sent : list Request) :
  server_name_ok name = true ->
  PutConfig body (routes.ServersPath +:+ "/" +:+ name) "POST"
    (mkConn doc sent)
    = match post_at (servers_keys ++ [name]) body false doc with
      | Some doc' =>
          (None,
           mkConn doc'
             (sent ++ [Send "POST"
                         (GetConfigURL (routes.ServersPath +:+ "/" +:+ name))
                         body]))
      | None =>
          (Some (BadStatus 404 (Some "not found")),
           mkConn doc
             (sent ++ [Send "POST"
                         (GetConfigURL (routes.ServersPath +:+ "/" +:+ name))
                         body]))
      end.
Proof.
  intros (Hv & _ & He)%server_name_ok_parts.
  apply PutConfig_store; [now apply parse_url_server|].
  now apply split_ellipsis_plain.
Qed.

End setup_on_store.

Section init_routes_on_store.
Import api store expected layout strings.

Lemma is_name_parse (k : string) : is_name k = true -> parse_index k = None.
Proof. unfold is_name. now destruct (parse_index k). Qed.

(** After an empty object is POSTed at a member and a value is POSTed at
    a member of that member, the first member is the object holding the
    second one alone. *)
Lemma post_at_fresh_member (k k2 : string) (v : Json) (p : list string) :
  is_name k = true -> is_name k2 = true ->
  forall doc doc1 doc2 : Json,
    names p = true ->
    post_at (p ++ [k]) (JObject []) false doc = Some doc1 ->
    post_at (p ++ [k; k2]) v false doc1 = Some doc2 ->
    get_at (p ++ [k]) doc2 = Some (JObject [(k2, v)]).
Proof.
  intros Hk Hk2.
  induction p as [|seg p IH]; intros doc doc1 doc2 Hn H1 H2.
  - simpl app in *. simpl post_at in H1. rewrite post_at_cons in H2.
    destruct doc as [| | | |l|o]; try discriminate.
    { simpl in H1. now rewrite (is_name_parse _ Hk) in H1. }
    simpl in H1.
    destruct (field k o) as [[| | | |arr|]|] eqn:Hf;
      injection H1 as <-; simpl child in H2;
      rewrite field_set_field_eq in H2; simpl in H2;
      try (injection H2 as <-; simpl; now rewrite field_set_field_eq).
    now rewrite (is_name_parse _ Hk2) in H2.
  - simpl in Hn. apply andb_prop in Hn as [Hs Hn]. simpl app in *.
    destruct (p ++ [k]) as [|s2 rest] eqn:E1; [now destruct p|].
    destruct (p ++ [k; k2]) as [|s3 rest3] eqn:E2; [now destruct p|].
    rewrite post_at_cons in H1, H2.
    destruct (child seg doc) as [c|] eqn:Hc; [|discriminate].
    destruct (child_name _ _ _ Hs Hc) as (o & -> & Hfo).
    destruct (post_at (s2 :: rest) (JObject []) false c) as [c1|] eqn:Hc1;
      [|discriminate].
    simpl in H1. injection H1 as <-.
    simpl child in H2. rewrite field_set_field_eq in H2.
    destruct (post_at (s3 :: rest3) v false c1) as [c2|] eqn:Hc2;
      [|discriminate].
    simpl in H2. injection H2 as <-.
    simpl. rewrite field_set_field_eq.
    exact (IH c c1 c2 Hn Hc1 Hc2).
Qed.

Lemma PutConfig_level (keys : list string) (doc : Json)
    (sent : list Request) :
  parse_url (GetConfigURL (config.KeysToPath keys)) = Some (ByPath keys) ->
  split_ellipsis keys = (keys, false) ->
  PutConfig (JObject []) (config.KeysToPath keys) "POST" (mkConn doc sent)
    = match post_at keys (JObject []) false doc with
      | Some doc' =>
          (None,
           mkConn doc'
             (sent ++ [Send "POST" (GetConfigURL (config.KeysToPath keys))
                            (JObject [])]))
      | None =>
          (Some (BadStatus 404 (Some "not found")),
           mkConn doc
             (sent ++ [Send "POST" (GetConfigURL (config.KeysToPath keys))
                            (JObject [])]))
      end.
Proof. apply PutConfig_store. Qed.

(** When [InitPath] on the servers path returns nil with [skip] at most
    2, its last write set the servers level. *)
Lemma InitPath_servers_last (skip : Z) (doc : Json) (sent : list Request) :
  (skip <= 2)%Z ->
  fst (config.InitPath routes.ServersPath skip (mkConn doc sent)) = None ->
  exists doc_a,
    post_at servers_keys (JObject []) false doc_a
      = Some (remote (snd (config.InitPath routes.ServersPath skip
                             (mkConn doc sent)))).
Proof.
  intros Hskip. unfold config.InitPath.
  change (config.PathToKeys routes.ServersPath) with servers_keys.
  unfold servers_keys. cbn [config.InitPath_loop app].
  change (Z.of_nat 0) with 0%Z. change (Z.of_nat 1) with 1%Z.
  change (Z.of_nat 2) with 2%Z.
  destruct (Z.ltb_spec 2 skip); [lia|].
  unfold check, bind, ret.
  destruct (Z.ltb_spec 0 skip); destruct (Z.ltb_spec 1 skip); try lia;
    repeat (rewrite PutConfig_level by reflexivity;
            match goal with
            | |- context [post_at ?p ?b false ?d] =>
                destruct (post_at p b false d) eqn:?
            end; cbn [fst snd remote]; try discriminate);
    intros _; eauto.
Qed.

End init_routes_on_store.

Section init_routes_theorems.
Import api store expected layout strings.

Lemma HasPath_conn {W : Type} {R : Remote W} (path : string) (c : Conn W) :
  snd (HasPath path c)
    = mkConn (remote c) (issued c ++ [Get (GetConfigURL path)]).
Proof. reflexivity. Qed.

Lemma HasPath_store_object (path : string) (p : list string) (doc : Json)
    (o : list (string * Json)) (sent : list Request) :
  parse_url (GetConfigURL path) = Some (ByPath p) ->
  get_at p doc = Some (JObject o) ->
  fst (HasPath path (mkConn doc sent)) = true.
Proof.
  intros Hu Hg. unfold HasPath, GetConfig, bind, ret. simpl.
  unfold serve_get. rewrite Hu. simpl. now rewrite Hg.
Qed.

(** What a successful [InitRoutes] leaves on a remote that did not have
    the servers path. *)
Lemma InitRoutes_store (doc : Json) (name : string) (skip : Z)
    (sent : list Request) :
  server_name_ok name = true -> (skip <= 2)%Z ->
  fst (HasPath routes.ServersPath (mkConn doc sent)) = false ->
  fst (routes.InitRoutes name skip (mkConn doc sent)) = None ->
  get_at servers_keys
    (remote (snd (routes.InitRoutes name skip (mkConn doc sent))))
    = Some (JObject [(name, server_json [])]).
Proof.
  intros Hok Hskip Hh. unfold routes.InitRoutes, bind.
  pose proof (HasPath_conn routes.ServersPath (mkConn doc sent)) as Hc.
  destruct (HasPath routes.ServersPath (mkConn doc sent)) as [b c1].
  simpl in Hh, Hc. subst b c1. unfold check, bind.
  pose proof (InitPath_servers_last skip doc
                (sent ++ [Get (GetConfigURL routes.ServersPath)]) Hskip) as Hl.
  simpl issued in *. simpl remote in *.
  destruct (config.InitPath routes.ServersPath skip _) as [[e|] [d2 s2]];
    [discriminate|].
  destruct (Hl eq_refl) as (doc_a & Ha). simpl in Ha.
  change (types.MarshalHTTPServer
            (types.mkHTTPServer [":80"; ":443"] [] ["h1"; "h2"]))
    with (server_json []).
  rewrite (PutConfig_server _ _ _ _ Hok).
  destruct (post_at (servers_keys ++ [name]) (server_json []) false d2)
    as [d3|] eqn:Hp; [|discriminate].
  intros _. cbn [fst snd remote].
  destruct (server_name_ok_parts _ Hok) as (_ & Hn & _).
  exact (post_at_fresh_member "servers" name (server_json [])
           ["apps"; "http"] eq_refl Hn doc_a d2 d3 eq_refl Ha Hp).
Qed.

(** X25. On a remote without the servers path, an [InitRoutes] that
    returns nil (with [skip] at most 2 and a server name that is a plain
    key) leaves under the servers path exactly the one server it was
    asked for, listening on [:80] and [:443], with protocols [h1] and
    [h2] and an empty route list. *)
Theorem InitRoutes_creates_server :
  forall (doc : Json) (name : string) (skip : Z) (sent : list Request),
    server_name_ok name = true -> (skip <= 2)%Z ->
    fst (HasPath routes.ServersPath (mkConn doc sent)) = false ->
    fst (routes.InitRoutes name skip (mkConn doc sent)) = None ->
    let doc' := remote (snd (routes.InitRoutes name skip (mkConn doc sent))) in
    get_at servers_keys doc' = Some (JObject [(name, server_json [])]) /\
    get_at (servers_keys ++ [name; "routes"]) doc' = Some (JArray []).
Proof.
  intros doc name skip sent Hok Hskip Hh Hr doc'.
  pose proof (InitRoutes_store doc name skip sent Hok Hskip Hh Hr) as Hg.
  fold doc' in Hg. split; [exact Hg|].
  change (servers_keys ++ [name; "routes"])
    with (servers_keys ++ [name] ++ ["routes"]).
  rewrite get_at_app, Hg. simpl. now rewrite String.eqb_refl.
Qed.

Lemma InitRoutes_creates_server_witness :
  let c := connect sample.apps_only in
  server_name_ok "web" = true /\
  fst (HasPath routes.ServersPath c) = false /\
  fst (routes.InitRoutes "web" 1 c) = None /\
  get_at servers_keys (remote (snd (routes.InitRoutes "web" 1 c)))
    = Some (JObject [("web", server_json [])]).
Proof.
  intros c. do 3 (split; [reflexivity|]).
  exact (proj1 (InitRoutes_creates_server sample.apps_only "web" 1 []
                  eq_refl ltac:(lia) eq_refl eq_refl)).
Defined.

(** X26. [InitRoutes] is idempotent: after a call that returned nil on a
    remote without the servers path, any further call, whatever its
    server name and [skip], returns nil after the probing read and
    leaves the remote as it is. *)
Theorem InitRoutes_idempotent :
  forall (doc : Json) (name name' : string) (skip skip' : Z)
         (sent : list Request),
    server_name_ok name = true -> (skip <= 2)%Z ->
    fst (HasPath routes.ServersPath (mkConn doc sent)) = false ->
    fst (routes.InitRoutes name skip (mkConn doc sent)) = None ->
    let c1 := snd (routes.InitRoutes name skip (mkConn doc sent)) in
    routes.InitRoutes name' skip' c1
      = (None,
         mkConn (remote c1)
                (issued c1 ++ [Get (GetConfigURL routes.ServersPath)])).
Proof.
  intros doc name name' skip skip' sent Hok Hskip Hh Hr c1.
  pose proof (InitRoutes_store doc name skip sent Hok Hskip Hh Hr) as Hg.
  fold c1 in Hg. destruct c1 as [d1 s1]. simpl in Hg.
  pose proof (HasPath_store_object routes.ServersPath servers_keys d1 _ s1
                eq_refl Hg) as Ht.
  unfold routes.InitRoutes, bind.
  pose proof (HasPath_conn routes.ServersPath (mkConn d1 s1)) as Hc.
  destruct (HasPath routes.ServersPath (mkConn d1 s1)) as [b c2].
  simpl in Ht, Hc. now subst b c2.
Qed.

Lemma InitRoutes_idempotent_witness :
  let c := connect sample.apps_only in
  let c1 := snd (routes.InitRoutes "srv0" 1 c) in
  server_name_ok "srv0" = true /\
  fst (HasPath routes.ServersPath c) = false /\
  fst (routes.InitRoutes "srv0" 1 c) = None /\
  remote (snd (routes.InitRoutes "other" 0 c1)) = remote c1.
Proof.
  intros c c1. do 3 (split; [reflexivity|]).
  exact (f_equal (fun r => remote (snd r))
           (InitRoutes_idempotent sample.apps_only "srv0" "other" 1 0 []
              eq_refl ltac:(lia) eq_refl eq_refl)).
Defined.

End init_routes_theorems.

(** ** TLS policies and the whole set-up against the remote tree *)
Section tls_and_setup_on_store.
Import api store expected layout strings.

Lemma AddTLSInternalConfig_fresh (doc : Json) :
  fst (HasPath tls.AutomationPath (connect doc)) = false ->
  tls.AddTLSInternalConfig (connect doc)
    = (None,
       mkConn (sample.tls_policies tls.internalPolicies)
              (tls_requests tls.internalPolicies)).
Proof.
  intros Hh. unfold tls.AddTLSInternalConfig, bind.
  pose proof (HasPath_conn tls.AutomationPath (connect doc)) as Hc.
  destruct (HasPath tls.AutomationPath (connect doc)) as [b c1].
  simpl in Hh, Hc. subst b c1. vm_compute. reflexivity.
Qed.

Lemma AddACMEConfig_fresh (doc : Json) (cfToken : string) :
  fst (HasPath tls.AutomationPath (connect doc)) = false ->
  tls.AddACMEConfig cfToken (connect doc)
    = (None,
       mkConn (sample.tls_policies (tls.acmePolicies cfToken))
              (tls_requests (tls.acmePolicies cfToken))).
Proof.
  intros Hh. unfold tls.AddACMEConfig, bind.
  pose proof (HasPath_conn tls.AutomationPath (connect doc)) as Hc.
  destruct (HasPath tls.AutomationPath (connect doc)) as [b c1].
  simpl in Hh, Hc. subst b c1. vm_compute. reflexivity.
Qed.

(** X27. On a remote without the automation path the TLS set-up starts
    from scratch: [AddTLSInternalConfig] and [AddACMEConfig] reset the
    root of the configuration, so that whatever the remote held before,
    it ends holding the TLS automation policies and nothing else (the
    internal issuer, or the ACME issuer with the Cloudflare DNS
    challenge and the given token). *)
Theorem tls_config_fresh :
  forall (doc : Json) (cfToken : string),
    fst (HasPath tls.AutomationPath (connect doc)) = false ->
    tls.AddTLSInternalConfig (connect doc)
      = (None,
         mkConn (sample.tls_policies tls.internalPolicies)
                (tls_requests tls.internalPolicies)) /\
    tls.AddACMEConfig cfToken (connect doc)
      = (None,
         mkConn (sample.tls_policies (tls.acmePolicies cfToken))
                (tls_requests (tls.acmePolicies cfToken))).
Proof.
  intros doc cfToken H. split.
  - now apply AddTLSInternalConfig_fresh.
  - now apply AddACMEConfig_fresh.
Qed.

Lemma tls_config_fresh_witness :
  let doc := sample.with_routes
               [types.MarshalRoute
                  (routes.reverseProxyRoute "a.com" "localhost:3000")] in
  fst (HasPath tls.AutomationPath (connect doc)) = false /\
  remote (snd (tls.AddTLSInternalConfig (connect doc)))
    = sample.tls_policies tls.internalPolicies /\
  get_at routes_keys (remote (snd (tls.AddTLSInternalConfig (connect doc))))
    = None.
Proof.
  intros doc. split; [reflexivity|].
  rewrite (proj1 (tls_config_fresh doc "" eq_refl)).
  split; reflexivity.
Defined.

(** A local [SetupCaddy] on a remote without the automation path. *)
Lemma SetupCaddy_local_store (getenv : string -> string) (doc : Json)
    (cfToken serverName : string) (installTrust : option bool) :
  let name := if String.eqb serverName "" then "srv0" else serverName in
  server_name_ok name = true ->
  fst (HasPath tls.AutomationPath (connect doc)) = false ->
  fst (fastcaddy.SetupCaddy getenv cfToken serverName true installTrust
         (connect doc)) = None /\
  remote (snd (fastcaddy.SetupCaddy getenv cfToken serverName true
                 installTrust (connect doc)))
    = after_setup installTrust name [].
Proof.
  intros name Hok Hh. unfold fastcaddy.SetupCaddy, check, bind.
  fold name. clearbody name.
  rewrite (AddTLSInternalConfig_fresh doc Hh).
  destruct installTrust as [b|].
  - set (r := tls.SetupPKITrust (Some b) _). vm_compute in r. subst r.
    cbv beta iota. unfold routes.InitRoutes, bind.
    set (h := HasPath routes.ServersPath _). vm_compute in h. subst h.
    cbv beta iota. unfold check, bind.
    set (i := config.InitPath routes.ServersPath 1 _). vm_compute in i.
    subst i. cbv beta iota.
    change (types.MarshalHTTPServer
              (types.mkHTTPServer [":80"; ":443"] [] ["h1"; "h2"]))
      with (server_json []).
    rewrite (PutConfig_server _ _ _ _ Hok). split; reflexivity.
  - set (r := tls.SetupPKITrust None _). vm_compute in r. subst r.
    cbv beta iota. unfold routes.InitRoutes, bind.
    set (h := HasPath routes.ServersPath _). vm_compute in h. subst h.
    cbv beta iota. unfold check, bind.
    set (i := config.InitPath routes.ServersPath 1 _). vm_compute in i.
    subst i. cbv beta iota.
    change (types.MarshalHTTPServer
              (types.mkHTTPServer [":80"; ":443"] [] ["h1"; "h2"]))
      with (server_json []).
    rewrite (PutConfig_server _ _ _ _ Hok). split; reflexivity.
Qed.

(** X28. A local [SetupCaddy] on a remote without TLS automation
    returns nil and leaves a document that does not depend on what the
    remote held: the internal-issuer policies, the PKI trust flag when
    one was given, and one server (named [srv0] when no name is given)
    with an empty route list. *)
Theorem SetupCaddy_local_fresh :
  forall (getenv : string -> string) (doc : Json)
         (cfToken serverName : string) (installTrust : option bool),
    let name := if String.eqb serverName "" then "srv0" else serverName in
    server_name_ok name = true ->
    fst (HasPath tls.AutomationPath (connect doc)) = false ->
    fst (fastcaddy.SetupCaddy getenv cfToken serverName true installTrust
           (connect doc)) = None /\
    remote (snd (fastcaddy.SetupCaddy getenv cfToken serverName true
                   installTrust (connect doc)))
      = after_setup installTrust name [].
Proof. exact SetupCaddy_local_store. Qed.

Lemma SetupCaddy_local_fresh_witness :
  let doc := sample.with_routes
               [types.MarshalRoute
                  (routes.reverseProxyRoute "a.com" "localhost:3000")] in
  server_name_ok "srv0" = true /\
  fst (HasPath tls.AutomationPath (connect doc)) = false /\
  remote (snd (fastcaddy.SetupCaddy (fun _ => "") "" "" true (Some true)
                 (connect doc)))
    = after_setup (Some true) "srv0" [].
Proof.
  intros doc. do 2 (split; [reflexivity|]).
  exact (proj2 (SetupCaddy_local_fresh (fun _ => "") doc "" "" (Some true)
                  eq_refl eq_refl)).
Defined.

(** X29. Running a local [SetupCaddy] again keeps what is there: on the
    document a first run left, with whatever routes were added to its
    server since, a further run returns nil and leaves the document as
    it is. *)
Theorem SetupCaddy_again :
  forall (getenv : string -> string) (cfToken serverName name : string)
         (installTrust : option bool) (rs : list Json),
    fst (fastcaddy.SetupCaddy getenv cfToken serverName true installTrust
           (connect (after_setup installTrust name rs))) = None /\
    remote (snd (fastcaddy.SetupCaddy getenv cfToken serverName true
                   installTrust (connect (after_setup installTrust name rs))))
      = after_setup installTrust name rs.
Proof.
  intros getenv cfToken serverName name installTrust rs.
  destruct installTrust as [b|]; split; vm_compute; reflexivity.
Qed.

(** X30. The route list is that of [srv0] whatever server was set up:
    after a local [SetupCaddy] with the default server name, [AddRoute]
    returns nil and the route list holds the route; after one with any
    other server name, [AddRoute] fails with the 404 of the remote and
    changes nothing. *)
Theorem AddRoute_after_SetupCaddy :
  forall (getenv : string -> string) (doc : Json)
         (cfToken serverName : string) (installTrust : option bool)
         (r : types.Route),
    fst (HasPath tls.AutomationPath (connect doc)) = false ->
    let setup name :=
      snd (fastcaddy.SetupCaddy getenv cfToken name true installTrust
             (connect doc)) in
    (fst (routes.AddRoute r (setup "")) = None /\
     get_at routes_keys (remote (snd (routes.AddRoute r (setup ""))))
       = Some (JArray [types.MarshalRoute r])) /\
    (server_name_ok serverName = true -> serverName <> "srv0" ->
     fst (routes.AddRoute r (setup serverName))
       = Some (BadStatus 404 (Some "not found")) /\
     remote (snd (routes.AddRoute r (setup serverName)))
       = remote (setup serverName)).
Proof.
  intros getenv doc cfToken serverName installTrust r Hh setup. split.
  - destruct (SetupCaddy_local_store getenv doc cfToken "" installTrust
                eq_refl Hh) as [_ Hd].
    unfold setup. destruct (fastcaddy.SetupCaddy _ _ "" _ _ _) as [e [d s]].
    simpl in Hd |- *. subst d.
    assert (Hg : get_at routes_keys (after_setup installTrust "srv0" [])
                 = Some (JArray []))
      by (destruct installTrust; reflexivity).
    destruct (AddRoute_store r _ [] s Hg) as (doc' & Hp & Ha).
    rewrite Ha. split; [reflexivity|].
    exact (get_put_at routes_keys _ _ doc' eq_refl Hp).
  - intros Hok Hne.
    assert (Hnm : (if String.eqb serverName "" then "srv0" else serverName)
                  = serverName).
    { destruct (String.eqb_spec serverName "") as [->|]; [done | reflexivity]. }
    pose proof (SetupCaddy_local_store getenv doc cfToken serverName
                  installTrust) as Hs.
    cbv zeta in Hs. rewrite Hnm in Hs. destruct (Hs Hok Hh) as [_ Hd].
    unfold setup.
    destruct (fastcaddy.SetupCaddy _ _ serverName _ _ _) as [e [d s]].
    simpl in Hd |- *. subst d.
    assert (Hg : get_at ["apps"; "http"; "servers"; "srv0"]
                   (after_setup installTrust serverName []) = None).
    { apply String.eqb_neq in Hne.
      destruct installTrust; simpl; now rewrite Hne. }
    unfold routes.AddRoute, PutConfig, sendRequest.
    change (strings.ToUpper "POST") with "POST". cbv zeta.
    cbn [remote issued].
    change (do_send "POST" ?u ?b ?d) with (serve_send "POST" u b d).
    rewrite (serve_send_routes_missing _ _ Hg). split; reflexivity.
Qed.

Lemma AddRoute_after_SetupCaddy_witness :
  let r := routes.reverseProxyRoute "a.com" "localhost:3000" in
  let setup name :=
    snd (fastcaddy.SetupCaddy (fun _ => "") "" name true None
           (connect sample.apps_only)) in
  fst (HasPath tls.AutomationPath (connect sample.apps_only)) = false /\
  server_name_ok "web" = true /\
  fst (routes.AddRoute r (setup "")) = None /\
  fst (routes.AddRoute r (setup "web"))
    = Some (BadStatus 404 (Some "not found")).
Proof.
  intros r setup. do 2 (split; [reflexivity|]).
  pose proof (AddRoute_after_SetupCaddy (fun _ => "") sample.apps_only ""
                "web" None r eq_refl) as [[H1 _] H2].
  split; [exact H1|].
  exact (proj1 (H2 eq_refl ltac:(discriminate))).
Defined.

End tls_and_setup_on_store.
